(** * View tracker: catalog store, metric fetcher and delta reconciler

    A shallow embedding of [main.py]: the three functions that touch the
    persisted tables ([save_videos_csv], [fetch_current_views],
    [update_allvideoviews]) as functions over an explicit file-system
    record, the discovery loop and the body of the run loop, with the
    Python primitives they rely on ([int], [str], [str.strip],
    insertion-ordered [dict], [range] with a step, slices) modelled
    first. *)

From Stdlib Require Import ZArith List Bool Lia Ascii String.
From Stdlib Require Import Numbers.DecimalString Numbers.DecimalZ Numbers.DecimalPos.
Import ListNotations.

Local Open Scope Z_scope.
Local Open Scope string_scope.
Local Open Scope list_scope.

(** ** Exceptions *)

Module Py.

(** The only exception the modelled code can raise on well-typed rows. *)
Inductive exn : Type := ValueError.

Inductive result (A : Type) : Type :=
| Ok (a : A)
| Raise (e : exn).

Arguments Ok {A} a.
Arguments Raise {A} e.

Definition bind {A B : Type} (r : result A) (k : A -> result B) : result B :=
  match r with
  | Ok a => k a
  | Raise e => Raise e
  end.

Definition is_ok {A : Type} (r : result A) : bool :=
  match r with Ok _ => true | Raise _ => false end.

(** ** [str.strip()] and [int(str)] *)

(** A [string] stands for a text of ASCII characters.  The characters
    from 128 on stand for nothing in particular: what [strip] and [int]
    make of text outside ASCII depends on the Unicode tables, which are
    not modelled, so every statement that depends on how some given text
    is read assumes [ascii_text] of it. *)
Fixpoint ascii_text (s : string) : bool :=
  match s with
  | EmptyString => true
  | String c s' => (nat_of_ascii c <? 128)%nat && ascii_text s'
  end.

(** Whitespace of [str.isspace] inside the ASCII range: TAB..CR, FS..US
    and the blank. *)
Definition is_space (c : ascii) : bool :=
  let n := nat_of_ascii c in
  ((9 <=? n)%nat && (n <=? 13)%nat) || ((28 <=? n)%nat && (n <=? 32)%nat).

Fixpoint lstrip (s : string) : string :=
  match s with
  | EmptyString => EmptyString
  | String c s' => if is_space c then lstrip s' else s
  end.

(** [rstrip] keeps a character when it is not a blank or when something
    that is kept follows it. *)
Fixpoint rstrip (s : string) : string :=
  match s with
  | EmptyString => EmptyString
  | String c s' =>
      match rstrip s' with
      | EmptyString => if is_space c then EmptyString else String c EmptyString
      | t => String c t
      end
  end.

Definition strip (s : string) : string := rstrip (lstrip s).

(** Text without any whitespace character. *)
Fixpoint no_space (s : string) : bool :=
  match s with
  | EmptyString => true
  | String c s' => negb (is_space c) && no_space s'
  end.

(** The whitespace [int] skips around a number is narrower than that of
    [strip]: TAB..CR and the blank, not FS..US. *)
Definition is_blank (c : ascii) : bool :=
  let n := nat_of_ascii c in
  ((9 <=? n)%nat && (n <=? 13)%nat) || (n =? 32)%nat.

Fixpoint skip_blanks (s : string) : string :=
  match s with
  | EmptyString => EmptyString
  | String c s' => if is_blank c then skip_blanks s' else s
  end.

Fixpoint drop_blanks (s : string) : string :=
  match s with
  | EmptyString => EmptyString
  | String c s' =>
      match drop_blanks s' with
      | EmptyString => if is_blank c then EmptyString else String c EmptyString
      | t => String c t
      end
  end.

(** One decimal digit, as the constructor of [Decimal.uint] it stands for. *)
Definition digit_of (c : ascii) : option (Decimal.uint -> Decimal.uint) :=
  match nat_of_ascii c with
  | 48%nat => Some Decimal.D0
  | 49%nat => Some Decimal.D1
  | 50%nat => Some Decimal.D2
  | 51%nat => Some Decimal.D3
  | 52%nat => Some Decimal.D4
  | 53%nat => Some Decimal.D5
  | 54%nat => Some Decimal.D6
  | 55%nat => Some Decimal.D7
  | 56%nat => Some Decimal.D8
  | 57%nat => Some Decimal.D9
  | _ => None
  end.

(** The digit part of an integer literal: at least one digit, single
    underscores allowed between digits only.  [prev] tells whether the
    character just read was a digit. *)
Fixpoint digits_of (prev : bool) (s : string) : option Decimal.uint :=
  match s with
  | EmptyString => if prev then Some Decimal.Nil else None
  | String c s' =>
      if Ascii.eqb c "_"
      then (if prev then digits_of false s' else None)
      else match digit_of c with
           | Some d => option_map d (digits_of true s')
           | None => None
           end
  end.

(** [int(s)] for a string [s], base ten: the blanks around the number
    are dropped, then one optional sign, then the digits. *)
Definition int (s : string) : result Z :=
  let of_digits (neg : bool) (t : string) :=
    match digits_of false t with
    | Some d => Ok (if neg then - Z.of_uint d else Z.of_uint d)
    | None => Raise ValueError
    end in
  match drop_blanks (skip_blanks s) with
  | String "-" t => of_digits true t
  | String "+" t => of_digits false t
  | t => of_digits false t
  end.

(** [str(n)] for an integer [n]. *)
Definition str (n : Z) : string := NilZero.string_of_int (Z.to_int n).

(** ASCII text that [int] accepts. *)
Definition readable (s : string) : bool := ascii_text s && is_ok (int s).

(** ** Insertion-ordered dictionaries keyed by strings *)

Definition dict (V : Type) : Type := list (string * V).

Fixpoint dict_get {V : Type} (d : dict V) (k : string) : option V :=
  match d with
  | [] => None
  | (k', v) :: d' => if String.eqb k' k then Some v else dict_get d' k
  end.

(** [d[k] = v]: an existing key keeps its position, a new one goes last. *)
Fixpoint dict_set {V : Type} (d : dict V) (k : string) (v : V) : dict V :=
  match d with
  | [] => [(k, v)]
  | (k', v') :: d' =>
      if String.eqb k' k then (k', v) :: d' else (k', v') :: dict_set d' k v
  end.

Definition keys {V : Type} (d : dict V) : list string := map fst d.

(** ** [range(0, n, step)] and slices *)

Definition range_step (n step : nat) : list nat :=
  map (fun k => (k * step)%nat) (seq 0 ((n + step - 1) / step)).

(** [l[i:j]] for [0 <= i <= j]. *)
Definition slice {A : Type} (l : list A) (i j : nat) : list A :=
  firstn (j - i) (skipn i l).

(** [sep.join(l)] *)
Definition join (sep : string) (l : list string) : string := String.concat sep l.

End Py.

Notation "x <- r ;; k" := (Py.bind r (fun x => k))
  (at level 61, r at next level, right associativity).

(** ** Data model *)

(** A row of [videos.csv], and the dictionary [discover_videos] builds. *)
Module Item.
Record t : Type := { video_id : string; title : string; published_at : string }.
End Item.

(** A row of [allvideoviews.csv] with its three fields present; every
    field is text in the file. *)
Module ViewRow.
Record t : Type := { video_id : string; last_views : string; last_checked : string }.
End ViewRow.

(** The value kept per id in [existing]. *)
Record ViewRecord : Type := { last_views : Z; last_checked : string }.

(** One element of [api_callout]. *)
Module Stat.
Record t : Type := { video_id : string; current_views : Z }.
End Stat.

(** One element of [response["items"]] of a statistics lookup;
    [viewCount] is [None] when the field is missing. *)
Module Video.
Record t : Type := { id : string; viewCount : option string }.
End Video.

(** A csv file on disk: absent, present with no byte in it, or a header
    line followed by rows.  [Table] is a file whose every line ends with
    its line terminator, as [csv.writer] leaves it.  [Unterminated] is a
    file whose last line (the header when there is no row) lacks its
    terminator and leaves no quoted field open; the program never writes
    such a file but may find one. *)
Inductive csv_file (R : Type) : Type :=
| Missing
| Zero_size
| Table (rows : list R)
| Unterminated (rows : list R).

Arguments Missing {R}.
Arguments Zero_size {R}.
Arguments Table {R} rows.
Arguments Unterminated {R} rows.

Definition path_exists {R : Type} (f : csv_file R) : bool :=
  match f with Missing => false | _ => true end.

(** The rows [csv.DictReader] yields; a last line without terminator is
    read like any other. *)
Definition DictReader {R : Type} (f : csv_file R) : list R :=
  match f with
  | Table rows | Unterminated rows => rows
  | Missing | Zero_size => []
  end.

(** [open(path, "a")] creates the file when it is absent. *)
Definition open_append {R : Type} (f : csv_file R) : csv_file R :=
  match f with Missing => Zero_size | _ => f end.

Definition st_size_is_zero {R : Type} (f : csv_file R) : bool :=
  match f with Missing | Zero_size => true | Table _ | Unterminated _ => false end.

Definition last_line_terminated {R : Type} (f : csv_file R) : bool :=
  match f with Unterminated _ => false | _ => true end.

(** [writer.writeheader()], which the code calls on a file of size zero
    only. *)
Definition writeheader {R : Type} (f : csv_file R) : csv_file R :=
  match f with Missing | Zero_size => Table [] | _ => f end.

(** The rows read back once the text of [r] has been written right
    behind an unterminated last line: the text runs into that line, and
    into the header when there is no row. *)
Fixpoint absorb {R : Type} (run_into : R -> R -> R) (rows : list R) (r : R) : list R :=
  match rows with
  | [] => []
  | [last] => [run_into last r]
  | row :: rest => row :: absorb run_into rest r
  end.

(** [writer.writerow(r)] on a file opened for appending: the bytes go
    to the end of the file, so the row becomes a line of its own only
    behind a terminated line. *)
Definition writerow {R : Type} (run_into : R -> R -> R) (f : csv_file R) (r : R)
  : csv_file R :=
  match f with
  | Unterminated rows => Table (absorb run_into rows r)
  | _ => Table (DictReader f ++ [r])
  end.

(** What [DictReader] makes of a catalog line [last] that the text of
    [v] ran into, for an id the writer has no need to quote: the id of
    [v] continues the last field, and the two other fields of [v] follow
    as surplus columns, which have no name. *)
Definition run_into (last v : Item.t) : Item.t :=
  {| Item.video_id := Item.video_id last;
     Item.title := Item.title last;
     Item.published_at := String.append (Item.published_at last) (Item.video_id v) |}.

(** The three files of the working directory. *)
Record files : Type := {
  VIDEOS_CSV : csv_file Item.t;
  ALL_VIEWS_CSV : csv_file ViewRow.t;
  SUMTOTAL_TXT : option string
}.

Definition no_files : files :=
  {| VIDEOS_CSV := Missing; ALL_VIEWS_CSV := Missing; SUMTOTAL_TXT := None |}.

(** ** Catalog store *)

Definition in_ids (ids : list string) (k : string) : bool :=
  existsb (String.eqb k) ids.

Definition save_videos_csv (videos : list Item.t) (fs : files) : files :=
  let existing_ids :=
    if path_exists (VIDEOS_CSV fs)
    then map Item.video_id (DictReader (VIDEOS_CSV fs))
    else [] in
  let f := open_append (VIDEOS_CSV fs) in
  let f := if st_size_is_zero f then writeheader f else f in
  let f := fold_left
             (fun f v => if in_ids existing_ids (Item.video_id v) then f
                         else writerow run_into f v)
             videos f in
  {| VIDEOS_CSV := f; ALL_VIEWS_CSV := ALL_VIEWS_CSV fs; SUMTOTAL_TXT := SUMTOTAL_TXT fs |}.

(** ** Metric fetcher *)

(** The API client: it remembers the [id=] parameter of every statistics
    request sent so far, oldest first. *)
Record client : Type := { requests : list string }.

Definition fresh_client : client := {| requests := [] |}.

Section Fetcher.

(** The upstream service: its answer to the [k]-th request, given the
    [id=] parameter of that request. *)
Variable upstream : nat -> string -> list Video.t.

(** [youtube.videos().list(part="statistics", id=chunk).execute()["items"]] *)
Definition videos_list (chunk : string) (c : client) : list Video.t * client :=
  (upstream (List.length (requests c)) chunk, {| requests := requests c ++ [chunk] |}).

Definition stat_of (item : Video.t) : Py.result Stat.t :=
  views <- match Video.viewCount item with
           | Some s => Py.int s
           | None => Py.Ok 0
           end ;;
  Py.Ok {| Stat.video_id := Video.id item; Stat.current_views := views |}.

(** The inner loop over [response["items"]]. *)
Fixpoint append_stats (items : list Video.t) (all_stats : list Stat.t)
  : Py.result (list Stat.t) :=
  match items with
  | [] => Py.Ok all_stats
  | item :: rest => s <- stat_of item ;; append_stats rest (all_stats ++ [s])
  end.

(** The outer loop over [range(0, len(video_ids), 50)]. *)
Fixpoint fetch_loop (video_ids : list string) (starts : list nat)
         (c : client) (all_stats : list Stat.t)
  : client * Py.result (list Stat.t) :=
  match starts with
  | [] => (c, Py.Ok all_stats)
  | i :: starts' =>
      let chunk := Py.join "," (Py.slice video_ids i (i + 50)) in
      let (items, c') := videos_list chunk c in
      match append_stats items all_stats with
      | Py.Ok all_stats' => fetch_loop video_ids starts' c' all_stats'
      | Py.Raise e => (c', Py.Raise e)
      end
  end.

Definition fetch_current_views (video_ids : list string) (c : client)
  : client * Py.result (list Stat.t) :=
  fetch_loop video_ids (Py.range_step (List.length video_ids) 50) c [].

End Fetcher.

(** ** Delta reconciler *)

(** Loading [allvideoviews.csv] into [existing], row by row. *)
Fixpoint load_rows (rows : list ViewRow.t) (existing : Py.dict ViewRecord)
  : Py.result (Py.dict ViewRecord) :=
  match rows with
  | [] => Py.Ok existing
  | row :: rest =>
      views <- Py.int (ViewRow.last_views row) ;;
      load_rows rest
        (Py.dict_set existing (ViewRow.video_id row)
           {| last_views := views; last_checked := ViewRow.last_checked row |})
  end.

Definition load_existing (f : csv_file ViewRow.t) : Py.result (Py.dict ViewRecord) :=
  if path_exists f then load_rows (DictReader f) [] else Py.Ok [].

(** Loading [sumtotal.txt]; a [ValueError] is caught and gives 0. *)
Definition load_cumulative_total (f : option string) : Z :=
  match f with
  | None => 0
  | Some text =>
      match Py.int (Py.strip text) with
      | Py.Ok n => n
      | Py.Raise Py.ValueError => 0
      end
  end.

(** The variables the main loop updates. *)
Record tally : Type := {
  existing : Py.dict ViewRecord;
  total_new_views : Z;
  cumulative_total : Z
}.

Definition delta_of (existing : Py.dict ViewRecord) (video : Stat.t) : Z :=
  let current_views := Stat.current_views video in
  match Py.dict_get existing (Stat.video_id video) with
  | Some known => Z.max 0 (current_views - last_views known)
  | None => current_views
  end.

(** One iteration of [for video in api_callout]. *)
Definition reconcile_one (now : string) (t : tally) (video : Stat.t) : tally :=
  let delta := delta_of (existing t) video in
  {| existing := Py.dict_set (existing t) (Stat.video_id video)
                   {| last_views := Stat.current_views video; last_checked := now |};
     total_new_views := total_new_views t + delta;
     cumulative_total := cumulative_total t + delta |}.

Definition reconcile (now : string) (api_callout : list Stat.t) (t : tally) : tally :=
  fold_left (reconcile_one now) api_callout t.

Definition row_of (entry : string * ViewRecord) : ViewRow.t :=
  {| ViewRow.video_id := fst entry;
     ViewRow.last_views := Py.str (last_views (snd entry));
     ViewRow.last_checked := last_checked (snd entry) |}.

(** What the two [print] calls show. *)
Record report : Type := { new_views : Z; cumulative : Z }.

Definition update_allvideoviews (now : string) (api_callout : list Stat.t) (fs : files)
  : Py.result (files * report) :=
  loaded <- load_existing (ALL_VIEWS_CSV fs) ;;
  let t := reconcile now api_callout
             {| existing := loaded;
                total_new_views := 0;
                cumulative_total := load_cumulative_total (SUMTOTAL_TXT fs) |} in
  Py.Ok ({| VIDEOS_CSV := VIDEOS_CSV fs;
            ALL_VIEWS_CSV := Table (map row_of (existing t));
            SUMTOTAL_TXT := Some (Py.str (cumulative_total t)) |},
         {| new_views := total_new_views t; cumulative := cumulative_total t |}).

(** Successive runs of the reconciler, each with its own clock reading
    and fetch batch. *)
Fixpoint reconciler_runs (runs : list (string * list Stat.t)) (fs : files)
  : Py.result files :=
  match runs with
  | [] => Py.Ok fs
  | (now, api_callout) :: later =>
      out <- update_allvideoviews now api_callout fs ;;
      reconciler_runs later (fst out)
  end.

(** Successive calls of the catalog writer. *)
Definition catalog_runs (discoveries : list (list Item.t)) (fs : files) : files :=
  fold_left (fun fs videos => save_videos_csv videos fs) discoveries fs.

(** ** The sum of per-item deltas, from the history of observations *)

(** The count most recently observed for [vid] in [history] (oldest
    first), if any. *)
Fixpoint previous_views (history : list Stat.t) (vid : string) : option Z :=
  match history with
  | [] => None
  | s :: later =>
      match previous_views later vid with
      | Some v => Some v
      | None => if String.eqb (Stat.video_id s) vid
                then Some (Stat.current_views s) else None
      end
  end.

Definition observed_delta (history : list Stat.t) (s : Stat.t) : Z :=
  match previous_views history (Stat.video_id s) with
  | Some previous => Z.max 0 (Stat.current_views s - previous)
  | None => Stat.current_views s
  end.

(** The deltas of [observations], each taken against everything observed
    before it, added up. *)
Fixpoint sum_of_deltas (history observations : list Stat.t) : Z :=
  match observations with
  | [] => 0
  | s :: later => observed_delta history s + sum_of_deltas (history ++ [s]) later
  end.

(** ** Shorthands used by the statements *)

(** The ids of a fetch batch and of a table, in order. *)
Definition ids (api_callout : list Stat.t) : list string :=
  map Stat.video_id api_callout.

Definition row_ids (rows : list ViewRow.t) : list string :=
  map ViewRow.video_id rows.

Definition item_ids (rows : list Item.t) : list string := map Item.video_id rows.

(** The loop variables as they stand when the loop is entered. *)
Definition start_tally (loaded : Py.dict ViewRecord) (fs : files) : tally :=
  {| existing := loaded;
     total_new_views := 0;
     cumulative_total := load_cumulative_total (SUMTOTAL_TXT fs) |}.

(** The mapping holds, for every id, the count last observed for it in
    [history]. *)
Definition tracks (history : list Stat.t) (d : Py.dict ViewRecord) : Prop :=
  forall vid, option_map last_views (Py.dict_get d vid) = previous_views history vid.

(** Every measurement of the batch repeats the count the mapping holds
    for its id. *)
Definition same_counts (api_callout : list Stat.t) (d : Py.dict ViewRecord) : Prop :=
  forall s, In s api_callout ->
    exists known, Py.dict_get d (Stat.video_id s) = Some known /\
                  last_views known = Stat.current_views s.

(** The count the table holds for [vid] as the reconciler loads it (of
    several rows for one id the last), if it can be loaded and has one. *)
Definition stored_views (f : csv_file ViewRow.t) (vid : string) : option Z :=
  match load_existing f with
  | Py.Ok loaded => option_map last_views (Py.dict_get loaded vid)
  | Py.Raise _ => None
  end.

(** The table as a history of observations: one per id it holds, with
    the count loaded for it. *)
Definition table_history (f : csv_file ViewRow.t) : list Stat.t :=
  match load_existing f with
  | Py.Ok loaded =>
      map (fun e => {| Stat.video_id := fst e;
                       Stat.current_views := last_views (snd e) |}) loaded
  | Py.Raise _ => []
  end.

(** ** Predicates used by the statements *)


(** Every [last_views] field of the table is ASCII text [int] accepts. *)
Definition rows_readable (f : csv_file ViewRow.t) : Prop :=
  Forall (fun row => Py.readable (ViewRow.last_views row) = true) (DictReader f).

(** Every [viewCount] the upstream sends is ASCII text [int] accepts. *)
Definition counts_readable (upstream : nat -> string -> list Video.t) : Prop :=
  forall k chunk item s,
    In item (upstream k chunk) -> Video.viewCount item = Some s ->
    Py.readable s = true.

(** The slices of [video_ids] the outer loop of the fetcher takes. *)
Definition slices (video_ids : list string) : list (list string) :=
  map (fun i => Py.slice video_ids i (i + 50))
      (Py.range_step (List.length video_ids) 50).

(** ** What the fetcher is expected to do, said without the loop *)

(** The count an upstream item stands for: a missing field is 0. *)
Definition views_of (item : Video.t) : Z :=
  match Video.viewCount item with
  | Some s => match Py.int s with Py.Ok n => n | Py.Raise _ => 0 end
  | None => 0
  end.

Definition pair_of (item : Video.t) : Stat.t :=
  {| Stat.video_id := Video.id item; Stat.current_views := views_of item |}.

(** The items the upstream sends for the requests [chunks], the first of
    them being its request number [k], one response after the other. *)
Fixpoint responses (upstream : nat -> string -> list Video.t)
         (k : nat) (chunks : list string) : list Video.t :=
  match chunks with
  | [] => []
  | chunk :: later => upstream k chunk ++ responses upstream (S k) later
  end.


(** ** Sample data *)

Definition measured (vid : string) (views : Z) : Stat.t :=
  {| Stat.video_id := vid; Stat.current_views := views |}.

Definition recorded (vid views checked : string) : ViewRow.t :=
  {| ViewRow.video_id := vid;
     ViewRow.last_views := views;
     ViewRow.last_checked := checked |}.

Definition discovered (vid name : string) : Item.t :=
  {| Item.video_id := vid; Item.title := name;
     Item.published_at := "2024-01-01T00:00:00Z" |}.

(** A table with two rows for [A], a row for [C], and a total of 100. *)
Definition sample_files : files :=
  {| VIDEOS_CSV := Missing;
     ALL_VIEWS_CSV := Table [recorded "A" "90" "t0"; recorded "C" "7" "t0";
                             recorded "A" "100" "t0"];
     SUMTOTAL_TXT := Some "100" |}.

(** The same table next to a total that is not a number. *)
Definition garbled_total : files :=
  {| VIDEOS_CSV := Missing;
     ALL_VIEWS_CSV := ALL_VIEWS_CSV sample_files;
     SUMTOTAL_TXT := Some "n/a" |}.

(** 120 identifiers, and an upstream that answers every request with one
    item named after the request, with a count only in its first answer. *)
Definition sample_ids : list string :=
  map (fun n => Py.str (Z.of_nat n)) (seq 0 120).

Definition sample_upstream (k : nat) (chunk : string) : list Video.t :=
  [{| Video.id := chunk;
      Video.viewCount := if Nat.eqb k 0 then Some "12" else None |}].

(** ** Catalog discovery *)

Definition CHANNEL_ID : string := "UCe9xwdRW2D7RYwlp6pRGOvQ".

(** [item["snippet"]] of a playlist entry, with [resourceId.videoId]. *)
Module Snippet.
Record t : Type := { videoId : string; title : string; publishedAt : string }.
End Snippet.

(** One response of [playlistItems().list]: its entries and the
    continuation token, [None] when the field is absent. *)
Record page : Type := { page_items : list Snippet.t; nextPageToken : option string }.

(** The two listing endpoints discovery uses: the uploads playlist of
    each item the channel lookup returns, and the answer to the [k]-th
    page request for a playlist and a page token. *)
Record listing : Type := {
  channels_list : string -> list string;
  playlist_items : nat -> string -> option string -> page
}.

(** How a call that loops on the upstream ends: with a value, with the
    [IndexError] of [response["items"][0]], or not within the steps
    granted to the loop. *)
Inductive outcome (A : Type) : Type :=
| Returned (a : A)
| IndexError
| Unfinished.

Arguments Returned {A} a.
Arguments IndexError {A}.
Arguments Unfinished {A}.

Definition get_uploads_playlist_id (api : listing) : outcome string :=
  match channels_list api CHANNEL_ID with
  | [] => IndexError
  | uploads :: _ => Returned uploads
  end.

Definition item_of (snippet : Snippet.t) : Item.t :=
  {| Item.video_id := Snippet.videoId snippet;
     Item.title := Snippet.title snippet;
     Item.published_at := Snippet.publishedAt snippet |}.

(** [not next_page]: the token is absent or the empty string. *)
Definition no_more (next_page : option string) : bool :=
  match next_page with
  | None => true
  | Some token => String.eqb token ""
  end.

(** The [while True] loop, for at most [steps] page requests; [k] counts
    the requests made so far. *)
Fixpoint discover_loop (api : listing) (steps : nat) (playlist_id : string)
         (k : nat) (next_page : option string) (videos : list Item.t)
  : outcome (list Item.t) :=
  match steps with
  | O => Unfinished
  | S steps' =>
      let response := playlist_items api k playlist_id next_page in
      let videos := videos ++ map item_of (page_items response) in
      let next_page := nextPageToken response in
      if no_more next_page then Returned videos
      else discover_loop api steps' playlist_id (S k) next_page videos
  end.

Definition discover_videos (api : listing) (steps : nat) : outcome (list Item.t) :=
  match get_uploads_playlist_id api with
  | Returned playlist_id => discover_loop api steps playlist_id 0 None []
  | IndexError => IndexError
  | Unfinished => Unfinished
  end.

(** The pages the upstream serves when the tokens are followed from
    request [k] with token [next_page]: each page but the last carries a
    token, the last one none. *)
Inductive served (api : listing) (playlist_id : string)
  : nat -> option string -> list page -> Prop :=
| served_last k next_page :
    no_more (nextPageToken (playlist_items api k playlist_id next_page)) = true ->
    served api playlist_id k next_page [playlist_items api k playlist_id next_page]
| served_more k next_page later :
    no_more (nextPageToken (playlist_items api k playlist_id next_page)) = false ->
    served api playlist_id (S k)
           (nextPageToken (playlist_items api k playlist_id next_page)) later ->
    served api playlist_id k next_page
           (playlist_items api k playlist_id next_page :: later).

(** ** One iteration of the run loop *)

Inductive run_status : Type :=
| Run_complete (r : report)
| Run_raised
| Run_unfinished.

(** The body of the [while True] loop of the entry point (the steps of
    [run_once]): discovery, catalog, fetch, reconciliation.  The files
    returned are the files as the iteration leaves them. *)
Definition run_once (api : listing) (upstream : nat -> string -> list Video.t)
           (steps : nat) (now : string) (fs : files) (c : client)
  : files * client * run_status :=
  match discover_videos api steps with
  | Returned videos =>
      let fs1 := save_videos_csv videos fs in
      let video_ids := map Item.video_id videos in
      match fetch_current_views upstream video_ids c with
      | (c', Py.Ok api_callout) =>
          match update_allvideoviews now api_callout fs1 with
          | Py.Ok (fs2, r) => (fs2, c', Run_complete r)
          | Py.Raise _ => (fs1, c', Run_raised)
          end
      | (c', Py.Raise _) => (fs1, c', Run_raised)
      end
  | IndexError => (fs, c, Run_raised)
  | Unfinished => (fs, c, Run_unfinished)
  end.

(** The [id=] parameter of the request for the slice starting at [i]. *)
Definition chunk_at (video_ids : list string) (i : nat) : string :=
  Py.join "," (Py.slice video_ids i (i + 50)).

(** ** Row order *)

(** The ids of [batch] that are not in [known], each once, in the order
    of their first occurrence. *)
Fixpoint new_ids (known : list string) (batch : list string) : list string :=
  match batch with
  | [] => []
  | k :: later =>
      if in_ids known k then new_ids known later
      else k :: new_ids (known ++ [k]) later
  end.

(** ** More sample data *)

Definition sample_catalog : files :=
  {| VIDEOS_CSV := Table [discovered "A" "first"];
     ALL_VIEWS_CSV := Missing;
     SUMTOTAL_TXT := None |}.

(** An upstream whose second answer carries a count that is no number. *)
Definition faulty_upstream (k : nat) (chunk : string) : list Video.t :=
  [{| Video.id := chunk;
      Video.viewCount := if Nat.eqb k 1 then Some "many" else Some "12" |}].

Definition snippet (vid : string) : Snippet.t :=
  {| Snippet.videoId := vid; Snippet.title := vid;
     Snippet.publishedAt := "2024-01-01T00:00:00Z" |}.

(** A channel whose uploads come in two pages. *)
Definition sample_listing : listing :=
  {| channels_list := fun _ => ["UU-uploads"];
     playlist_items := fun k _ _ =>
       match k with
       | O => {| page_items := [snippet "A"; snippet "B"];
                 nextPageToken := Some "page2" |}
       | _ => {| page_items := [snippet "C"]; nextPageToken := None |}
       end |}.

(** A channel whose every page carries a token. *)
Definition endless_listing : listing :=
  {| channels_list := fun _ => ["UU-uploads"];
     playlist_items := fun _ _ _ =>
       {| page_items := [snippet "A"]; nextPageToken := Some "again" |} |}.

(** A view table whose second row holds a count that is no integer. *)
Definition garbled_table : files :=
  {| VIDEOS_CSV := Missing;
     ALL_VIEWS_CSV := Table [recorded "A" "100" "t0"; recorded "B" "1e3" "t0"];
     SUMTOTAL_TXT := Some "100" |}.

(** * Facts about the Python primitives *)

Module PyFacts.
Import Py.

(** ** [strip] leaves text without blanks alone *)

Lemma lstrip_no_space s : no_space s = true -> lstrip s = s.
Proof.
  destruct s as [|c s]; simpl; [reflexivity|].
  intros H. apply andb_prop in H as [Hc _].
  destruct (is_space c); [discriminate|reflexivity].
Qed.

Lemma rstrip_no_space s : no_space s = true -> rstrip s = s.
Proof.
  induction s as [|c s IH]; simpl; [reflexivity|].
  intros H. apply andb_prop in H as [Hc Hs].
  rewrite (IH Hs). destruct s; [|reflexivity].
  destruct (is_space c); [discriminate|reflexivity].
Qed.

Lemma strip_no_space s : no_space s = true -> strip s = s.
Proof.
  intros H. unfold strip. rewrite (lstrip_no_space _ H). now apply rstrip_no_space.
Qed.

Lemma blank_is_space c : is_blank c = true -> is_space c = true.
Proof.
  unfold is_blank, is_space. intros H.
  apply orb_true_iff in H as [H|H]; apply orb_true_iff; [now left|right].
  apply Nat.eqb_eq in H. now rewrite H.
Qed.

Lemma not_blank c : is_space c = false -> is_blank c = false.
Proof.
  intros H. destruct (is_blank c) eqn:E; [|reflexivity].
  apply blank_is_space in E. congruence.
Qed.

Lemma skip_blanks_no_space s : no_space s = true -> skip_blanks s = s.
Proof.
  destruct s as [|c s]; simpl; [reflexivity|].
  intros H. apply andb_prop in H as [Hc _]. apply negb_true_iff in Hc.
  now rewrite (not_blank _ Hc).
Qed.

Lemma drop_blanks_no_space s : no_space s = true -> drop_blanks s = s.
Proof.
  induction s as [|c s IH]; simpl; [reflexivity|].
  intros H. apply andb_prop in H as [Hc Hs]. apply negb_true_iff in Hc.
  rewrite (IH Hs). destruct s; [|reflexivity].
  now rewrite (not_blank _ Hc).
Qed.

Lemma int_strip_no_space s : no_space s = true -> drop_blanks (skip_blanks s) = s.
Proof.
  intros H. rewrite (skip_blanks_no_space _ H). now apply drop_blanks_no_space.
Qed.

(** ** Printing then reading an integer *)

Lemma no_space_uint d : no_space (NilEmpty.string_of_uint d) = true.
Proof. induction d; simpl; auto. Qed.

Lemma digits_of_uint d prev :
  digits_of prev (NilEmpty.string_of_uint d)
  = match d with
    | Decimal.Nil => if prev then Some Decimal.Nil else None
    | _ => Some d
    end.
Proof.
  revert prev.
  induction d; intros prev; simpl; try reflexivity;
    rewrite IHd; destruct d; reflexivity.
Qed.

Lemma int_of_uint_text d :
  d <> Decimal.Nil -> int (NilEmpty.string_of_uint d) = Ok (Z.of_uint d).
Proof.
  intros Hd. unfold int.
  rewrite (int_strip_no_space _ (no_space_uint d)).
  destruct d as [|d|d|d|d|d|d|d|d|d|d]; try congruence;
    simpl; rewrite digits_of_uint; destruct d; reflexivity.
Qed.

Lemma int_of_neg_uint_text d :
  d <> Decimal.Nil ->
  int (String "-" (NilEmpty.string_of_uint d)) = Ok (- Z.of_uint d).
Proof.
  intros Hd. unfold int.
  rewrite int_strip_no_space by (simpl; apply no_space_uint).
  cbv iota beta. rewrite digits_of_uint. destruct d; congruence.
Qed.

Lemma string_of_uint_nonnil d :
  d <> Decimal.Nil -> NilZero.string_of_uint d = NilEmpty.string_of_uint d.
Proof. destruct d; congruence || reflexivity. Qed.

Lemma int_str (n : Z) : int (str n) = Ok n.
Proof.
  unfold str. rewrite <- (DecimalZ.of_to n) at 2.
  destruct n as [|p|p]; simpl Z.to_int.
  - reflexivity.
  - pose proof (Unsigned.to_uint_nonnil p) as Hp.
    simpl NilZero.string_of_int. rewrite (string_of_uint_nonnil _ Hp).
    now apply int_of_uint_text.
  - pose proof (Unsigned.to_uint_nonnil p) as Hp.
    simpl NilZero.string_of_int. rewrite (string_of_uint_nonnil _ Hp).
    now apply int_of_neg_uint_text.
Qed.

Lemma no_space_str (n : Z) : no_space (str n) = true.
Proof.
  unfold str. destruct n as [|p|p]; simpl Z.to_int; [reflexivity| |];
    pose proof (Unsigned.to_uint_nonnil p) as Hp;
    simpl NilZero.string_of_int; rewrite (string_of_uint_nonnil _ Hp);
    simpl; apply no_space_uint.
Qed.

Lemma readable_ok s : readable s = true -> is_ok (int s) = true.
Proof. unfold readable. intros H. now apply andb_prop in H. Qed.

Lemma ascii_text_uint d : ascii_text (NilEmpty.string_of_uint d) = true.
Proof. induction d; simpl; auto. Qed.

Lemma ascii_text_str (n : Z) : ascii_text (str n) = true.
Proof.
  unfold str. destruct n as [|p|p]; simpl Z.to_int; [reflexivity| |];
    pose proof (Unsigned.to_uint_nonnil p) as Hp;
    simpl NilZero.string_of_int; rewrite (string_of_uint_nonnil _ Hp);
    simpl; apply ascii_text_uint.
Qed.

(** What the reconciler prints, it can read. *)
Lemma readable_str (n : Z) : readable (str n) = true.
Proof. unfold readable. now rewrite ascii_text_str, int_str. Qed.

(** What [update_allvideoviews] reads back from a total it wrote. *)
Lemma int_strip_str (n : Z) : int (strip (str n)) = Ok n.
Proof. rewrite (strip_no_space _ (no_space_str n)). apply int_str. Qed.

End PyFacts.

(** * Facts about insertion-ordered dictionaries *)

Module DictFacts.
Import Py.

Section Dict.
Context {V : Type}.
Implicit Types (d : dict V) (k : string) (v : V).

Lemma get_set_same d k v : dict_get (dict_set d k v) k = Some v.
Proof.
  induction d as [|[k' v'] d IH]; simpl.
  - now rewrite String.eqb_refl.
  - destruct (String.eqb k' k) eqn:E; simpl; rewrite E; auto.
Qed.

Lemma get_set_other d k k' v :
  k <> k' -> dict_get (dict_set d k v) k' = dict_get d k'.
Proof.
  intros Hk. induction d as [|[k0 v0] d IH]; simpl.
  - apply String.eqb_neq in Hk. now rewrite Hk.
  - destruct (String.eqb k0 k) eqn:E; simpl.
    + apply String.eqb_eq in E; subst k0.
      apply String.eqb_neq in Hk. now rewrite Hk.
    + now rewrite IH.
Qed.

Lemma get_none_iff d k : dict_get d k = None <-> ~ In k (keys d).
Proof.
  induction d as [|[k' v'] d IH]; simpl.
  - tauto.
  - destruct (String.eqb k' k) eqn:E.
    + apply String.eqb_eq in E. split; [discriminate|tauto].
    + apply String.eqb_neq in E. rewrite IH. tauto.
Qed.

Lemma get_some_in d k v : dict_get d k = Some v -> In (k, v) d.
Proof.
  induction d as [|[k' v'] d IH]; simpl; [discriminate|].
  destruct (String.eqb k' k) eqn:E.
  - apply String.eqb_eq in E. intros [= ->]. left. now subst.
  - auto.
Qed.

Lemma in_get_nodup d k v :
  NoDup (keys d) -> In (k, v) d -> dict_get d k = Some v.
Proof.
  induction d as [|[k' v'] d IH]; simpl; [tauto|].
  intros Hnd [E|Hin]; inversion Hnd as [|? ? Hk' Hd]; subst.
  - injection E as -> ->. now rewrite String.eqb_refl.
  - destruct (String.eqb k' k) eqn:E.
    + apply String.eqb_eq in E; subst k'.
      exfalso. apply Hk'. change k with (fst (k, v)). now apply in_map.
    + auto.
Qed.

Lemma set_fresh d k v : ~ In k (keys d) -> dict_set d k v = d ++ [(k, v)].
Proof.
  induction d as [|[k' v'] d IH]; simpl; [reflexivity|].
  intros Hk. destruct (String.eqb k' k) eqn:E.
  - apply String.eqb_eq in E. tauto.
  - rewrite IH; tauto.
Qed.

Lemma keys_set_in d k v k' :
  In k' (keys (dict_set d k v)) <-> k' = k \/ In k' (keys d).
Proof.
  induction d as [|[k0 v0] d IH]; simpl.
  - intuition.
  - destruct (String.eqb k0 k) eqn:E; simpl.
    + apply String.eqb_eq in E. subst. intuition.
    + rewrite IH. intuition.
Qed.

Lemma keys_set_nodup d k v : NoDup (keys d) -> NoDup (keys (dict_set d k v)).
Proof.
  induction d as [|[k0 v0] d IH]; simpl; intros Hnd.
  - constructor; [simpl; tauto|constructor].
  - inversion Hnd as [|? ? Hk0 Hd]; subst.
    destruct (String.eqb k0 k) eqn:E; simpl.
    + now constructor.
    + constructor; [|now apply IH].
      fold (keys (dict_set d k v)). rewrite keys_set_in.
      apply String.eqb_neq in E. intros [->|H]; tauto.
Qed.

(** Setting the entries of a duplicate-free dictionary one after the
    other rebuilds it, in the same order. *)
Lemma fold_set_rebuild (entries d : dict V) :
  NoDup (keys (d ++ entries)) ->
  fold_left (fun acc e => dict_set acc (fst e) (snd e)) entries d = d ++ entries.
Proof.
  revert d. induction entries as [|[k v] entries IH]; intros d Hnd; simpl.
  - now rewrite app_nil_r.
  - assert (Hk : ~ In k (keys d)).
    { unfold keys in *. rewrite map_app in Hnd. simpl in Hnd.
      apply NoDup_remove_2 in Hnd. rewrite in_app_iff in Hnd. tauto. }
    rewrite (set_fresh _ _ _ Hk).
    change (d ++ (k, v) :: entries) with (d ++ [(k, v)] ++ entries) in *.
    rewrite app_assoc in *. now apply IH.
Qed.

End Dict.
End DictFacts.

(** * The delta reconciler *)

Module ReconcilerFacts.
Import Py DictFacts.

(** ** The loop over the batch *)

Lemma reconcile_app now a b t :
  reconcile now (a ++ b) t = reconcile now b (reconcile now a t).
Proof. apply fold_left_app. Qed.

Lemma reconcile_cons now s batch t :
  reconcile now (s :: batch) t = reconcile now batch (reconcile_one now t s).
Proof. reflexivity. Qed.

Lemma reconcile_keys_nodup now batch t :
  NoDup (keys (existing t)) -> NoDup (keys (existing (reconcile now batch t))).
Proof.
  revert t. induction batch as [|s batch IH]; intros t Hnd; simpl; [assumption|].
  apply IH. simpl. now apply keys_set_nodup.
Qed.

Lemma reconcile_keys now batch t k :
  In k (keys (existing (reconcile now batch t)))
  <-> In k (keys (existing t)) \/ In k (ids batch).
Proof.
  revert t. induction batch as [|s batch IH]; intros t; simpl; [tauto|].
  rewrite IH. simpl. rewrite keys_set_in. intuition congruence.
Qed.

Lemma reconcile_get_absent now batch t vid :
  ~ In vid (ids batch) ->
  dict_get (existing (reconcile now batch t)) vid = dict_get (existing t) vid.
Proof.
  revert t. induction batch as [|s batch IH]; intros t Hvid; simpl in *; [reflexivity|].
  rewrite IH by tauto. simpl. apply get_set_other. tauto.
Qed.

(** ** Loading the table *)

Lemma load_rows_app a b d0 :
  load_rows (a ++ b) d0 = (d1 <- load_rows a d0 ;; load_rows b d1).
Proof.
  revert d0. induction a as [|row a IH]; intros d0; simpl; [reflexivity|].
  destruct (int (ViewRow.last_views row)); simpl; [apply IH|reflexivity].
Qed.

Lemma load_rows_ok rows d0 :
  Forall (fun row => is_ok (int (ViewRow.last_views row)) = true) rows ->
  exists d, load_rows rows d0 = Ok d.
Proof.
  intros H. revert d0. induction H as [|row rows Hrow _ IH]; intros d0; simpl.
  - now exists d0.
  - destruct (int (ViewRow.last_views row)); [apply IH|discriminate].
Qed.

Lemma load_rows_readable rows d0 d :
  load_rows rows d0 = Ok d ->
  Forall (fun row => is_ok (int (ViewRow.last_views row)) = true) rows.
Proof.
  revert d0. induction rows as [|row rows IH]; intros d0; simpl; [constructor|].
  destruct (int (ViewRow.last_views row)) eqn:E; simpl; [|discriminate].
  intros H. constructor; [now rewrite E|eauto].
Qed.

Lemma load_rows_nodup rows d0 d :
  NoDup (keys d0) -> load_rows rows d0 = Ok d -> NoDup (keys d).
Proof.
  revert d0. induction rows as [|row rows IH]; intros d0 Hnd; simpl.
  - now intros [= <-].
  - destruct (int (ViewRow.last_views row)); simpl; [|discriminate].
    apply IH. now apply keys_set_nodup.
Qed.

Lemma load_rows_keys rows d0 d k :
  load_rows rows d0 = Ok d ->
  (In k (keys d) <-> In k (keys d0) \/ In k (row_ids rows)).
Proof.
  revert d0. induction rows as [|row rows IH]; intros d0; simpl.
  - intros [= <-]. tauto.
  - destruct (int (ViewRow.last_views row)); simpl; [|discriminate].
    intros H. rewrite (IH _ H), keys_set_in. intuition congruence.
Qed.

Lemma load_rows_get_absent rows d0 d vid :
  ~ In vid (row_ids rows) -> load_rows rows d0 = Ok d ->
  dict_get d vid = dict_get d0 vid.
Proof.
  revert d0. induction rows as [|row rows IH]; intros d0 Hvid; simpl in *.
  - now intros [= <-].
  - destruct (int (ViewRow.last_views row)); simpl; [|discriminate].
    intros H. rewrite (IH _ (fun H' => Hvid (or_intror H')) H).
    apply get_set_other. tauto.
Qed.

(** Of several rows with one id, the last one read is the one kept. *)
Lemma load_rows_last earlier row later d0 d :
  ~ In (ViewRow.video_id row) (row_ids later) ->
  load_rows (earlier ++ row :: later) d0 = Ok d ->
  exists views,
    int (ViewRow.last_views row) = Ok views /\
    dict_get d (ViewRow.video_id row)
    = Some {| last_views := views; last_checked := ViewRow.last_checked row |}.
Proof.
  intros Hlater. rewrite load_rows_app.
  destruct (load_rows earlier d0) as [d1|] eqn:E1; simpl; [|discriminate].
  destruct (int (ViewRow.last_views row)) as [views|] eqn:Ev; simpl; [|discriminate].
  intros H. exists views. split; [reflexivity|].
  rewrite (load_rows_get_absent _ _ _ _ Hlater H). apply get_set_same.
Qed.

Lemma row_of_id (e : string * ViewRecord) : ViewRow.video_id (row_of e) = fst e.
Proof. reflexivity. Qed.

Lemma row_ids_written (d : dict ViewRecord) : row_ids (map row_of d) = keys d.
Proof. unfold row_ids, keys. rewrite map_map. reflexivity. Qed.

(** Reading back a table the reconciler wrote gives the mapping it was
    written from. *)
Lemma load_rows_written (entries d0 : dict ViewRecord) :
  load_rows (map row_of entries) d0
  = Ok (fold_left (fun acc e => dict_set acc (fst e) (snd e)) entries d0).
Proof.
  revert d0. induction entries as [|[k [views checked]] entries IH]; intros d0; simpl.
  - reflexivity.
  - rewrite PyFacts.int_str. simpl. apply IH.
Qed.

Lemma load_existing_written (d : dict ViewRecord) :
  NoDup (keys d) -> load_existing (Table (map row_of d)) = Ok d.
Proof.
  intros Hnd. unfold load_existing. simpl.
  rewrite load_rows_written. f_equal. now apply (fold_set_rebuild d []).
Qed.

Lemma written_rows_readable (d : dict ViewRecord) :
  rows_readable (Table (map row_of d)).
Proof.
  unfold rows_readable. cbn [DictReader]. apply Forall_forall.
  intros row Hin. apply in_map_iff in Hin as [e [<- _]]. apply PyFacts.readable_str.
Qed.

Lemma load_existing_nodup f d : load_existing f = Ok d -> NoDup (keys d).
Proof.
  unfold load_existing. destruct (path_exists f).
  - apply load_rows_nodup. constructor.
  - intros [= <-]. constructor.
Qed.

Lemma load_existing_ok f : rows_readable f -> exists d, load_existing f = Ok d.
Proof.
  unfold load_existing, rows_readable. intros H.
  destruct (path_exists f); [|now exists []].
  apply load_rows_ok. revert H. apply Forall_impl.
  intros row. apply PyFacts.readable_ok.
Qed.

Lemma load_existing_rows f d : load_existing f = Ok d -> load_rows (DictReader f) [] = Ok d.
Proof.
  unfold load_existing. destruct f; simpl; auto.
Qed.

(** What [sumtotal.txt] holds after a run is what the next run loads. *)
Lemma load_cumulative_total_written (n : Z) :
  load_cumulative_total (Some (str n)) = n.
Proof. unfold load_cumulative_total. now rewrite PyFacts.int_strip_str. Qed.

(** ** One run, unfolded *)

Lemma update_allvideoviews_loaded now api_callout fs loaded :
  load_existing (ALL_VIEWS_CSV fs) = Ok loaded ->
  update_allvideoviews now api_callout fs
  = let t := reconcile now api_callout (start_tally loaded fs) in
    Ok ({| VIDEOS_CSV := VIDEOS_CSV fs;
           ALL_VIEWS_CSV := Table (map row_of (existing t));
           SUMTOTAL_TXT := Some (str (cumulative_total t)) |},
        {| new_views := total_new_views t; cumulative := cumulative_total t |}).
Proof. intros H. unfold update_allvideoviews. rewrite H. reflexivity. Qed.

(** A duplicate-free mapping is written with one row per entry. *)
Lemma in_written (d : dict ViewRecord) (row : ViewRow.t) :
  NoDup (keys d) ->
  (In row (map row_of d) <->
   exists r, dict_get d (ViewRow.video_id row) = Some r /\
             row = row_of (ViewRow.video_id row, r)).
Proof.
  intros Hnd. rewrite in_map_iff. split.
  - intros [[k r] [<- Hin]]. exists r. split; [|reflexivity].
    now apply in_get_nodup.
  - intros [r [Hget ->]]. exists (ViewRow.video_id row, r). split; [reflexivity|].
    now apply get_some_in.
Qed.

Lemma start_tally_nodup f fs loaded :
  load_existing f = Ok loaded -> NoDup (keys (existing (start_tally loaded fs))).
Proof. apply load_existing_nodup. Qed.

(** ** Totals *)

Lemma str_inj (a b : Z) : str a = str b -> a = b.
Proof.
  intros H. pose proof (PyFacts.int_str a) as Ha. rewrite H, PyFacts.int_str in Ha.
  congruence.
Qed.

(** Both totals move by the same amounts. *)
Lemma reconcile_totals_together now batch t :
  cumulative_total (reconcile now batch t) - cumulative_total t
  = total_new_views (reconcile now batch t) - total_new_views t.
Proof.
  revert t. induction batch as [|s batch IH]; intros t; [simpl; lia|].
  rewrite reconcile_cons. specialize (IH (reconcile_one now t s)).
  set (t' := reconcile now batch _) in *. simpl in IH. lia.
Qed.



Lemma same_counts_step now t s batch :
  same_counts (s :: batch) (existing t) ->
  delta_of (existing t) s = 0 /\ same_counts batch (existing (reconcile_one now t s)).
Proof.
  intros H. destruct (H s (or_introl eq_refl)) as [known [Hget Hviews]]. split.
  - unfold delta_of. rewrite Hget. lia.
  - intros s' Hs'. destruct (H s' (or_intror Hs')) as [known' [Hget' Hviews']]. simpl.
    destruct (String.eqb (Stat.video_id s) (Stat.video_id s')) eqn:E.
    + apply String.eqb_eq in E. rewrite <- E, get_set_same. eexists. split; [reflexivity|].
      simpl. rewrite <- E, Hget in Hget'. congruence.
    + apply String.eqb_neq in E. rewrite (get_set_other _ _ _ _ E). eauto.
Qed.

Lemma reconcile_same_counts now batch t :
  same_counts batch (existing t) ->
  total_new_views (reconcile now batch t) = total_new_views t /\
  cumulative_total (reconcile now batch t) = cumulative_total t.
Proof.
  revert t. induction batch as [|s batch IH]; intros t H; [simpl; tauto|].
  destruct (same_counts_step now t s batch H) as [Hdelta Hrest].
  destruct (IH _ Hrest) as [H1 H2]. rewrite reconcile_cons, H1, H2. simpl. lia.
Qed.

(** ** The mapping against the history of observations *)

Lemma previous_views_app history s vid :
  previous_views (history ++ [s]) vid
  = if String.eqb (Stat.video_id s) vid then Some (Stat.current_views s)
    else previous_views history vid.
Proof.
  induction history as [|s0 history IH]; simpl.
  - reflexivity.
  - rewrite IH. destruct (String.eqb (Stat.video_id s) vid); [reflexivity|].
    reflexivity.
Qed.

Lemma sum_of_deltas_app history a b :
  sum_of_deltas history (a ++ b)
  = sum_of_deltas history a + sum_of_deltas (history ++ a) b.
Proof.
  revert history. induction a as [|s a IH]; intros history; simpl.
  - now rewrite app_nil_r.
  - rewrite IH, <- app_assoc. simpl. lia.
Qed.

Lemma tracks_delta history d s :
  tracks history d -> delta_of d s = observed_delta history s.
Proof.
  intros H. unfold delta_of, observed_delta. rewrite <- (H (Stat.video_id s)).
  destruct (dict_get d (Stat.video_id s)); reflexivity.
Qed.

Lemma tracks_step now history t s :
  tracks history (existing t) ->
  tracks (history ++ [s]) (existing (reconcile_one now t s)).
Proof.
  intros H vid. rewrite previous_views_app. simpl.
  destruct (String.eqb (Stat.video_id s) vid) eqn:E.
  - apply String.eqb_eq in E. subst vid. now rewrite get_set_same.
  - apply String.eqb_neq in E. rewrite (get_set_other _ _ _ _ E). apply H.
Qed.

Lemma reconcile_tracks now history batch t :
  tracks history (existing t) ->
  tracks (history ++ batch) (existing (reconcile now batch t)) /\
  cumulative_total (reconcile now batch t)
  = cumulative_total t + sum_of_deltas history batch.
Proof.
  revert history t. induction batch as [|s batch IH]; intros history t H.
  - simpl. rewrite app_nil_r. split; [assumption|lia].
  - destruct (IH _ _ (tracks_step now history t s H)) as [Htr Hsum].
    rewrite <- app_assoc in Htr. rewrite reconcile_cons. split; [exact Htr|].
    rewrite Hsum. simpl. rewrite (tracks_delta _ _ _ H). lia.
Qed.

(** ** What a run leaves for the next one *)

Lemma update_allvideoviews_next now api_callout fs loaded :
  load_existing (ALL_VIEWS_CSV fs) = Ok loaded ->
  let t := reconcile now api_callout (start_tally loaded fs) in
  exists fs',
    update_allvideoviews now api_callout fs
    = Ok (fs', {| new_views := total_new_views t; cumulative := cumulative_total t |}) /\
    load_existing (ALL_VIEWS_CSV fs') = Ok (existing t) /\
    SUMTOTAL_TXT fs' = Some (str (cumulative_total t)) /\
    load_cumulative_total (SUMTOTAL_TXT fs') = cumulative_total t.
Proof.
  intros Hload t. rewrite (update_allvideoviews_loaded _ _ _ _ Hload). cbv zeta.
  eexists. split; [reflexivity|]. simpl. repeat split.
  - apply load_existing_written. apply reconcile_keys_nodup.
    exact (start_tally_nodup _ fs _ Hload).
  - apply load_cumulative_total_written.
Qed.

(** ** The last measurement of an id *)

Lemma previous_views_none batch vid :
  previous_views batch vid = None -> ~ In vid (ids batch).
Proof.
  induction batch as [|s batch IH]; simpl; [tauto|].
  destruct (previous_views batch vid); [discriminate|].
  destruct (String.eqb (Stat.video_id s) vid) eqn:E; [discriminate|].
  apply String.eqb_neq in E. intros _ [H|H]; [congruence|now apply IH].
Qed.

Lemma reconcile_last now batch t vid views :
  previous_views batch vid = Some views ->
  dict_get (existing (reconcile now batch t)) vid
  = Some {| last_views := views; last_checked := now |}.
Proof.
  revert t. induction batch as [|s batch IH]; intros t; simpl; [discriminate|].
  destruct (previous_views batch vid) as [v|] eqn:Hlater.
  - intros [= <-]. now apply IH.
  - destruct (String.eqb (Stat.video_id s) vid) eqn:E; [|discriminate].
    intros [= <-]. apply String.eqb_eq in E. subst vid.
    fold (reconcile now batch (reconcile_one now t s)).
    rewrite (reconcile_get_absent _ _ _ _ (previous_views_none _ _ Hlater)).
    simpl. apply get_set_same.
Qed.

(** ** A run cut in two *)

Lemma tally_eta (t : tally) :
  t = {| existing := existing t;
         total_new_views := total_new_views t;
         cumulative_total := cumulative_total t |}.
Proof. now destruct t. Qed.

(** The count of new views the loop starts from does not bear on the
    mapping nor on the cumulative total. *)
Lemma reconcile_from now batch t n :
  reconcile now batch {| existing := existing t;
                         total_new_views := n;
                         cumulative_total := cumulative_total t |}
  = {| existing := existing (reconcile now batch t);
       total_new_views := n + (total_new_views (reconcile now batch t)
                               - total_new_views t);
       cumulative_total := cumulative_total (reconcile now batch t) |}.
Proof.
  revert t n. induction batch as [|s batch IH]; intros t n.
  - simpl. f_equal. lia.
  - rewrite !reconcile_cons.
    change (reconcile_one now {| existing := existing t;
                                 total_new_views := n;
                                 cumulative_total := cumulative_total t |} s)
      with {| existing := existing (reconcile_one now t s);
              total_new_views := n + delta_of (existing t) s;
              cumulative_total := cumulative_total (reconcile_one now t s) |}.
    rewrite IH. f_equal. simpl. lia.
Qed.

(** A run over [a ++ b] is the run over [a] followed by a run over [b]
    at the same time: same files, same cumulative total, and the new
    views of the two add up. *)
Lemma update_allvideoviews_split now a b fs loaded :
  load_existing (ALL_VIEWS_CSV fs) = Ok loaded ->
  let ta := reconcile now a (start_tally loaded fs) in
  let tab := reconcile now (a ++ b) (start_tally loaded fs) in
  exists fs1 fs',
    update_allvideoviews now a fs
    = Ok (fs1, {| new_views := total_new_views ta; cumulative := cumulative_total ta |}) /\
    update_allvideoviews now (a ++ b) fs
    = Ok (fs', {| new_views := total_new_views tab;
                  cumulative := cumulative_total tab |}) /\
    update_allvideoviews now b fs1
    = Ok (fs', {| new_views := total_new_views tab - total_new_views ta;
                  cumulative := cumulative_total tab |}) /\
    load_existing (ALL_VIEWS_CSV fs1) = Ok (existing ta) /\
    load_existing (ALL_VIEWS_CSV fs') = Ok (existing tab) /\
    DictReader (ALL_VIEWS_CSV fs') = map row_of (existing tab) /\
    NoDup (keys (existing tab)).
Proof.
  intros Hload ta tab.
  assert (Hnda : NoDup (keys (existing ta))).
  { apply reconcile_keys_nodup. exact (start_tally_nodup _ fs _ Hload). }
  assert (Hndab : NoDup (keys (existing tab))).
  { apply reconcile_keys_nodup. exact (start_tally_nodup _ fs _ Hload). }
  destruct (update_allvideoviews_next now a fs loaded Hload)
    as [fs1 [Hrun1 [Hload1 [Htext1 Htotal1]]]]. fold ta in Hrun1, Hload1, Htext1, Htotal1.
  exists fs1. eexists. split; [exact Hrun1|].
  split; [exact (update_allvideoviews_loaded now (a ++ b) fs loaded Hload)|].
  fold tab. cbn [ALL_VIEWS_CSV DictReader].
  split; [|split; [exact Hload1|split; [now apply load_existing_written|now split]]].
  rewrite (update_allvideoviews_loaded now b fs1 _ Hload1). cbv zeta.
  unfold start_tally. rewrite Htotal1.
  rewrite (reconcile_from now b ta 0).
  assert (Htab : reconcile now b ta = tab) by (subst ta tab; now rewrite reconcile_app).
  rewrite Htab. cbn [existing total_new_views cumulative_total].
  assert (Hv : VIDEOS_CSV fs1 = VIDEOS_CSV fs).
  { rewrite (update_allvideoviews_loaded _ _ _ _ Hload) in Hrun1.
    cbv zeta in Hrun1. injection Hrun1 as <-. reflexivity. }
  rewrite Hv. reflexivity.
Qed.

(** ** The table as a mapping and as a history *)

Lemma stored_views_loaded f loaded vid :
  load_existing f = Ok loaded ->
  stored_views f vid = option_map last_views (dict_get loaded vid).
Proof. intros H. unfold stored_views. now rewrite H. Qed.

Lemma history_tracks (d : dict ViewRecord) :
  NoDup (keys d) ->
  tracks (map (fun e => {| Stat.video_id := fst e;
                           Stat.current_views := last_views (snd e) |}) d) d.
Proof.
  intros Hnd vid. induction d as [|[k r] d IH]; [reflexivity|].
  inversion Hnd as [|? ? Hk Hd]; subst. cbn [map previous_views dict_get fst snd].
  cbn [Stat.video_id Stat.current_views]. rewrite <- (IH Hd).
  destruct (String.eqb k vid) eqn:E.
  - apply String.eqb_eq in E. subst vid.
    apply get_none_iff in Hk. now rewrite Hk.
  - now destruct (dict_get d vid).
Qed.

Lemma table_history_tracks f loaded :
  load_existing f = Ok loaded -> tracks (table_history f) loaded.
Proof.
  intros H. unfold table_history. rewrite H. apply history_tracks.
  exact (load_existing_nodup _ _ H).
Qed.

(** The new views of a run are the deltas of its batch against the
    table, added up. *)
Lemma run_sums_deltas now api_callout fs loaded :
  load_existing (ALL_VIEWS_CSV fs) = Ok loaded ->
  let t := reconcile now api_callout (start_tally loaded fs) in
  total_new_views t = sum_of_deltas (table_history (ALL_VIEWS_CSV fs)) api_callout /\
  cumulative_total t
  = load_cumulative_total (SUMTOTAL_TXT fs)
    + sum_of_deltas (table_history (ALL_VIEWS_CSV fs)) api_callout.
Proof.
  intros Hload t.
  destruct (reconcile_tracks now _ api_callout (start_tally loaded fs)
              (table_history_tracks _ _ Hload)) as [_ Hsum]. fold t in Hsum.
  pose proof (reconcile_totals_together now api_callout (start_tally loaded fs)) as Heq.
  fold t in Heq. cbn [start_tally cumulative_total total_new_views] in *. lia.
Qed.

End ReconcilerFacts.

(** * Properties of the reconciler *)

Module Reconciler.
Import Py DictFacts ReconcilerFacts.


(** C9.  An id that occurs twice in one batch is processed twice against
    the mapping being updated.  For a run of [update_allvideoviews] on a
    table it can read, whatever that table holds for the id: with
    [between] free of the id, the run up to the second occurrence has the
    first occurrence's count stored, the second occurrence adds
    [max 0 (c2 - c1)] to both reported totals, nothing when the count is
    unchanged, and, no further occurrence following, the table the run
    writes has for the id the one row with the second occurrence's
    count. *)
Theorem repeated_id_within_batch now fs before vid c1 between c2 after :
  rows_readable (ALL_VIEWS_CSV fs) ->
  ~ In vid (ids between) ->
  ~ In vid (ids after) ->
  let first := {| Stat.video_id := vid; Stat.current_views := c1 |} in
  let again := {| Stat.video_id := vid; Stat.current_views := c2 |} in
  exists fs1 rep1 fs2 rep2 fs3 rep3,
    update_allvideoviews now (before ++ first :: between) fs = Ok (fs1, rep1) /\
    update_allvideoviews now (before ++ first :: between ++ [again]) fs
    = Ok (fs2, rep2) /\
    update_allvideoviews now (before ++ first :: between ++ again :: after) fs
    = Ok (fs3, rep3) /\
    stored_views (ALL_VIEWS_CSV fs1) vid = Some c1 /\
    new_views rep2 = new_views rep1 + Z.max 0 (c2 - c1) /\
    cumulative rep2 = cumulative rep1 + Z.max 0 (c2 - c1) /\
    (c2 = c1 ->
     new_views rep2 = new_views rep1 /\ cumulative rep2 = cumulative rep1) /\
    stored_views (ALL_VIEWS_CSV fs3) vid = Some c2 /\
    let stored := {| ViewRow.video_id := vid;
                     ViewRow.last_views := str c2;
                     ViewRow.last_checked := now |} in
    In stored (DictReader (ALL_VIEWS_CSV fs3)) /\
    (forall row, In row (DictReader (ALL_VIEWS_CSV fs3)) ->
                 ViewRow.video_id row = vid -> row = stored).
Proof.
  intros Hread Hbetween Hafter first again.
  destruct (load_existing_ok _ Hread) as [loaded Hload].
  set (a := before ++ first :: between).
  assert (E1 : before ++ first :: between ++ [again] = a ++ [again]).
  { subst a. now rewrite <- app_assoc. }
  assert (E2 : before ++ first :: between ++ again :: after = (a ++ [again]) ++ after).
  { subst a. now rewrite <- !app_assoc. }
  rewrite E1, E2.
  destruct (update_allvideoviews_split now a [again] fs loaded Hload)
    as [fs1 [fs2 [Hrun1 [Hrun2 [_ [Hload1 _]]]]]].
  destruct (update_allvideoviews_split now (a ++ [again]) after fs loaded Hload)
    as [fs2' [fs3 [_ [Hrun3 [_ [_ [Hload3 [Hrows3 Hnd3]]]]]]]].
  set (t1 := reconcile now a (start_tally loaded fs)) in *.
  assert (Hknown : dict_get (existing t1) vid
                   = Some {| last_views := c1; last_checked := now |}).
  { subst t1 a. change (first :: between) with ([first] ++ between).
    rewrite !reconcile_app, (reconcile_get_absent _ _ _ _ Hbetween).
    simpl. apply get_set_same. }
  assert (Ht2 : reconcile now (a ++ [again]) (start_tally loaded fs)
                = reconcile_one now t1 again).
  { subst t1. now rewrite reconcile_app. }
  assert (Hstored : dict_get (existing (reconcile now ((a ++ [again]) ++ after)
                                          (start_tally loaded fs))) vid
                    = Some {| last_views := c2; last_checked := now |}).
  { rewrite reconcile_app, (reconcile_get_absent _ _ _ _ Hafter), Ht2.
    simpl. apply get_set_same. }
  assert (Hdelta : delta_of (existing t1) again = Z.max 0 (c2 - c1)).
  { unfold delta_of. simpl. now rewrite Hknown. }
  rewrite Ht2 in Hrun2.
  eexists fs1, _, fs2, _, fs3, _.
  split; [exact Hrun1|]. split; [exact Hrun2|]. split; [exact Hrun3|].
  cbn [new_views cumulative reconcile_one total_new_views cumulative_total].
  rewrite Hdelta, (stored_views_loaded _ _ vid Hload1),
    (stored_views_loaded _ _ vid Hload3), Hknown, Hstored. cbn [option_map last_views].
  split; [reflexivity|]. split; [reflexivity|]. split; [reflexivity|]. split.
  { intros ->. rewrite Z.sub_diag. simpl. lia. }
  split; [reflexivity|]. cbv zeta. rewrite Hrows3. split.
  - apply (in_written _ _ Hnd3). cbn [ViewRow.video_id].
    eexists. split; [exact Hstored|reflexivity].
  - intros row Hin Hid. apply (in_written _ _ Hnd3) in Hin as [r [Hr ->]].
    rewrite Hid in *. rewrite Hstored in Hr. injection Hr as <-. reflexivity.
Qed.


(** C10.  Whatever rows the table held, duplicates included, a run that
    can read them succeeds and rewrites the table with exactly one row
    per id: the ids written are without repetition, they are the ids read
    together with the ids of the batch, and for an id the batch does not
    mention the row written carries the values of the last row read for
    it. *)
Theorem rewritten_table_one_row_per_id now api_callout fs :
  rows_readable (ALL_VIEWS_CSV fs) ->
  exists fs' rep rows',
    update_allvideoviews now api_callout fs = Ok (fs', rep) /\
    ALL_VIEWS_CSV fs' = Table rows' /\
    NoDup (row_ids rows') /\
    (forall vid,
       In vid (row_ids rows') <->
       In vid (row_ids (DictReader (ALL_VIEWS_CSV fs))) \/ In vid (ids api_callout)) /\
    (forall earlier row later row',
       DictReader (ALL_VIEWS_CSV fs) = earlier ++ row :: later ->
       ~ In (ViewRow.video_id row) (row_ids later) ->
       ~ In (ViewRow.video_id row) (ids api_callout) ->
       In row' rows' -> ViewRow.video_id row' = ViewRow.video_id row ->
       int (ViewRow.last_views row') = int (ViewRow.last_views row) /\
       ViewRow.last_checked row' = ViewRow.last_checked row).
Proof.
  intros Hread.
  destruct (load_existing_ok _ Hread) as [loaded Hload].
  pose proof (load_existing_rows _ _ Hload) as Hl.
  rewrite (update_allvideoviews_loaded _ _ _ _ Hload). cbv zeta.
  set (t := reconcile now api_callout (start_tally loaded fs)).
  assert (Hnd : NoDup (keys (existing t))).
  { apply reconcile_keys_nodup. exact (start_tally_nodup _ fs _ Hload). }
  eexists _, _, _. split; [reflexivity|]. split; [reflexivity|].
  rewrite row_ids_written. split; [exact Hnd|]. split.
  - intros vid. subst t. rewrite reconcile_keys. simpl.
    rewrite (load_rows_keys _ _ _ vid Hl). simpl. tauto.
  - intros earlier row later row' Hrows Hlater Hbatch Hin Hid.
    rewrite Hrows in Hl.
    destruct (load_rows_last _ _ _ _ _ Hlater Hl) as [views [Hviews Hget]].
    apply (in_written _ _ Hnd) in Hin as [r [Hr ->]]. rewrite Hid in Hr.
    subst t. rewrite (reconcile_get_absent _ _ _ _ Hbatch) in Hr. simpl in Hr.
    rewrite Hget in Hr. injection Hr as <-. simpl.
    now rewrite Hviews, PyFacts.int_str.
Qed.

(** C5.  When a run is followed by a second run whose every measurement
    carries the count the first run stored for its id (the table the
    first run wrote has a row with that id and that count), the second
    run succeeds, reports 0 new views, and leaves the cumulative total,
    as reported and as persisted, unchanged. *)
Theorem second_run_same_counts now1 batch1 now2 batch2 fs fs1 rep1 :
  update_allvideoviews now1 batch1 fs = Ok (fs1, rep1) ->
  (forall s, In s batch2 ->
     exists checked,
       In {| ViewRow.video_id := Stat.video_id s;
             ViewRow.last_views := str (Stat.current_views s);
             ViewRow.last_checked := checked |} (DictReader (ALL_VIEWS_CSV fs1))) ->
  exists fs2 rep2,
    update_allvideoviews now2 batch2 fs1 = Ok (fs2, rep2) /\
    new_views rep2 = 0 /\
    cumulative rep2 = cumulative rep1 /\
    SUMTOTAL_TXT fs2 = SUMTOTAL_TXT fs1.
Proof.
  intros Hrun1 Hsame.
  destruct (load_existing (ALL_VIEWS_CSV fs)) as [loaded|e] eqn:Hload;
    [|unfold update_allvideoviews in Hrun1; rewrite Hload in Hrun1; discriminate].
  destruct (update_allvideoviews_next now1 batch1 fs loaded Hload)
    as [fs1' [Hrun1' [Hload1 [Htext1 Htotal1]]]].
  rewrite Hrun1 in Hrun1'. injection Hrun1' as <- ->.
  set (t1 := reconcile now1 batch1 (start_tally loaded fs)) in *.
  assert (Hnd : NoDup (keys (existing t1))) by exact (load_existing_nodup _ _ Hload1).
  assert (Hrows : DictReader (ALL_VIEWS_CSV fs1) = map row_of (existing t1)).
  { unfold update_allvideoviews in Hrun1. rewrite Hload in Hrun1.
    injection Hrun1 as <-. reflexivity. }
  assert (Hcounts : same_counts batch2 (existing (start_tally (existing t1) fs1))).
  { intros s Hs. destruct (Hsame s Hs) as [checked Hin]. rewrite Hrows in Hin.
    apply (in_written _ _ Hnd) in Hin as [known [Hget Hrow]]. simpl in *.
    exists known. split; [exact Hget|].
    injection Hrow as Hviews _. symmetry. now apply str_inj. }
  destruct (update_allvideoviews_next now2 batch2 fs1 _ Hload1)
    as [fs2 [Hrun2 [_ [Htext2 _]]]].
  destruct (reconcile_same_counts now2 batch2 _ Hcounts) as [Hnew Hcum].
  eexists _, _. split; [exact Hrun2|]. simpl.
  rewrite Htext2, Htext1, Hnew, Hcum. simpl. rewrite Htotal1. auto.
Qed.

(** C7.  When [sumtotal.txt] is missing, or holds ASCII text that is no
    integer once stripped, the total is loaded as 0 and the run goes on
    as it does from a file that holds 0: on a table it can read it
    succeeds, its new views are the deltas of the batch against the table
    added up, the cumulative total it reports and writes is this run's
    new views, and every id of the batch is written with its last
    measurement and the time of the run. *)
Theorem unreadable_total_loads_as_zero now api_callout fs :
  SUMTOTAL_TXT fs = None \/
  (exists text, SUMTOTAL_TXT fs = Some text /\ ascii_text text = true /\
                int (strip text) = Raise ValueError) ->
  rows_readable (ALL_VIEWS_CSV fs) ->
  load_cumulative_total (SUMTOTAL_TXT fs) = 0 /\
  update_allvideoviews now api_callout fs
  = update_allvideoviews now api_callout
      {| VIDEOS_CSV := VIDEOS_CSV fs;
         ALL_VIEWS_CSV := ALL_VIEWS_CSV fs;
         SUMTOTAL_TXT := Some "0" |} /\
  exists fs' rep,
    update_allvideoviews now api_callout fs = Ok (fs', rep) /\
    new_views rep = sum_of_deltas (table_history (ALL_VIEWS_CSV fs)) api_callout /\
    cumulative rep = new_views rep /\
    SUMTOTAL_TXT fs' = Some (str (new_views rep)) /\
    forall vid views,
      previous_views api_callout vid = Some views ->
      In {| ViewRow.video_id := vid;
            ViewRow.last_views := str views;
            ViewRow.last_checked := now |} (DictReader (ALL_VIEWS_CSV fs')).
Proof.
  intros Htotal Hread.
  assert (Hzero : load_cumulative_total (SUMTOTAL_TXT fs) = 0).
  { destruct Htotal as [->|[text [-> [_ Hbad]]]]; simpl;
      [reflexivity|now rewrite Hbad]. }
  split; [exact Hzero|]. split.
  - unfold update_allvideoviews. simpl SUMTOTAL_TXT at 3. simpl ALL_VIEWS_CSV.
    simpl VIDEOS_CSV. rewrite Hzero. reflexivity.
  - destruct (load_existing_ok _ Hread) as [loaded Hload].
    destruct (update_allvideoviews_split now api_callout [] fs loaded Hload)
      as [fs' [_ [Hrun [_ [_ [Hload' _]]]]]].
    destruct (update_allvideoviews_next now api_callout fs loaded Hload)
      as [fs'' [Hrun' [_ [Htext _]]]].
    rewrite Hrun in Hrun'. injection Hrun' as <-.
    destruct (run_sums_deltas now api_callout fs loaded Hload) as [Hnew Hcum].
    rewrite Hzero in Hcum.
    assert (Hnd : NoDup (keys (existing (reconcile now api_callout
                                          (start_tally loaded fs))))).
    { apply reconcile_keys_nodup. exact (start_tally_nodup _ fs _ Hload). }
    assert (Hrows : DictReader (ALL_VIEWS_CSV fs')
                    = map row_of (existing (reconcile now api_callout
                                              (start_tally loaded fs)))).
    { rewrite (update_allvideoviews_loaded _ _ _ _ Hload) in Hrun.
      cbv zeta in Hrun. injection Hrun as <-. reflexivity. }
    eexists _, _. split; [exact Hrun|]. cbn [new_views cumulative].
    split; [exact Hnew|]. split; [lia|]. split.
    + rewrite Htext. f_equal. f_equal. lia.
    + intros vid views Hlast. rewrite Hrows. apply (in_written _ _ Hnd).
      cbn [ViewRow.video_id].
      eexists. split; [exact (reconcile_last now _ _ _ _ Hlast)|reflexivity].
Qed.

(** The runs of the reconciler from a state whose mapping follows a
    history of observations. *)
Lemma reconciler_runs_from runs fs loaded history :
  load_existing (ALL_VIEWS_CSV fs) = Ok loaded ->
  tracks history loaded ->
  exists fs',
    reconciler_runs runs fs = Ok fs' /\
    load_cumulative_total (SUMTOTAL_TXT fs')
    = load_cumulative_total (SUMTOTAL_TXT fs)
      + sum_of_deltas history (List.concat (map snd runs)) /\
    SUMTOTAL_TXT fs'
    = match runs with
      | [] => SUMTOTAL_TXT fs
      | _ => Some (str (load_cumulative_total (SUMTOTAL_TXT fs')))
      end.
Proof.
  revert fs loaded history.
  induction runs as [|[now batch] runs IH]; intros fs loaded history Hload Htracks.
  - exists fs. simpl. repeat split. lia.
  - destruct (update_allvideoviews_next now batch fs loaded Hload)
      as [fs1 [Hrun [Hload1 [Htext1 Htotal1]]]].
    destruct (reconcile_tracks now history batch (start_tally loaded fs) Htracks)
      as [Htracks1 Hsum1].
    destruct (IH fs1 _ _ Hload1 Htracks1) as [fs' [Hruns [Hsum Htext]]].
    exists fs'. simpl. rewrite Hrun. simpl. split; [exact Hruns|]. split.
    + rewrite sum_of_deltas_app, Hsum, Htotal1, Hsum1. simpl. lia.
    + destruct runs; [|exact Htext].
      simpl in Hruns. injection Hruns as <-. rewrite Htotal1. exact Htext1.
Qed.

(** C2.  From no persisted state at all, any sequence of runs succeeds,
    and the cumulative total the last run leaves in [sumtotal.txt] is the
    sum of the deltas of all measurements of all runs in the order they
    were processed, each delta being [max 0 (current - previous)] against
    the count last observed for the same id, or the full count when the
    id was never observed. *)
Theorem cumulative_total_is_sum_of_deltas (runs : list (string * list Stat.t)) :
  let total := sum_of_deltas [] (List.concat (map snd runs)) in
  exists fs',
    reconciler_runs runs no_files = Ok fs' /\
    load_cumulative_total (SUMTOTAL_TXT fs') = total /\
    SUMTOTAL_TXT fs' = match runs with [] => None | _ => Some (str total) end.
Proof.
  intros total.
  destruct (reconciler_runs_from runs no_files [] [] eq_refl (fun _ => eq_refl))
    as [fs' [Hruns [Hsum Htext]]].
  exists fs'. simpl in Hsum. split; [exact Hruns|]. split; [exact Hsum|].
  rewrite Hsum in Htext. exact Htext.
Qed.


End Reconciler.

(** * The metric fetcher *)

Module Fetcher.
Import Py.

Lemma firstn_add {A : Type} (a b : nat) (l : list A) :
  firstn (a + b) l = firstn a l ++ firstn b (skipn a l).
Proof.
  revert l. induction a as [|a IH]; intros l; simpl; [reflexivity|].
  destruct l as [|x l]; simpl.
  - now rewrite firstn_nil.
  - now rewrite IH.
Qed.

Lemma concat_map_single {A B : Type} (f : A -> list B) (x : A) :
  List.concat (map f [x]) = f x.
Proof. simpl. apply app_nil_r. Qed.

Lemma range_step_50 (n : nat) :
  exists m, range_step n 50 = map (fun k => (k * 50)%nat) (seq 0 m) /\
            (n <= m * 50 /\ (m = 0 \/ (m - 1) * 50 < n))%nat.
Proof.
  unfold range_step. exists ((n + 50 - 1) / 50)%nat. split; [reflexivity|].
  pose proof (Nat.div_mod_eq (n + 50 - 1) 50) as Hdiv.
  pose proof (Nat.mod_upper_bound (n + 50 - 1) 50 ltac:(discriminate)) as Hmod.
  lia.
Qed.

Lemma slices_eq video_ids :
  exists m,
    slices video_ids = map (fun k => firstn 50 (skipn (k * 50) video_ids)) (seq 0 m) /\
    (List.length video_ids <= m * 50 /\
     (m = 0 \/ (m - 1) * 50 < List.length video_ids))%nat.
Proof.
  destruct (range_step_50 (List.length video_ids)) as [m [Hrange Hm]].
  exists m. split; [|exact Hm].
  unfold slices, slice. rewrite Hrange, map_map. apply map_ext.
  intros k. f_equal. lia.
Qed.

Lemma concat_slices_upto {A : Type} (l : list A) (m : nat) :
  List.concat (map (fun k => firstn 50 (skipn (k * 50) l)) (seq 0 m))
  = firstn (m * 50) l.
Proof.
  induction m as [|m IH]; [reflexivity|].
  rewrite seq_S, map_app, concat_app, IH, Nat.add_0_l, concat_map_single.
  rewrite <- firstn_add. f_equal. lia.
Qed.

(** The slices are consecutive and cover the list. *)
Lemma concat_slices video_ids : List.concat (slices video_ids) = video_ids.
Proof.
  destruct (slices_eq video_ids) as [m [-> [Hm _]]].
  rewrite concat_slices_upto. now apply firstn_all2.
Qed.

Lemma slice_length {A : Type} (l : list A) (k : nat) :
  List.length (firstn 50 (skipn (k * 50) l)) = Nat.min 50 (List.length l - k * 50).
Proof. now rewrite length_firstn, length_skipn. Qed.

(** No slice is empty and none has more than 50 identifiers. *)
Lemma slices_bounds video_ids :
  Forall (fun chunk => (1 <= List.length chunk <= 50)%nat) (slices video_ids).
Proof.
  destruct (slices_eq video_ids) as [m [-> [_ Hm]]].
  apply Forall_forall. intros chunk Hin.
  apply in_map_iff in Hin as [k [<- Hk]]. apply in_seq in Hk.
  rewrite slice_length. lia.
Qed.

(** Every slice but the last one has exactly 50 identifiers. *)
Lemma slices_full video_ids :
  Forall (fun chunk => List.length chunk = 50%nat) (removelast (slices video_ids)).
Proof.
  destruct (slices_eq video_ids) as [m [-> [_ Hm]]].
  destruct m as [|m]; [constructor|].
  rewrite seq_S, map_app. cbn [map]. rewrite removelast_last.
  apply Forall_forall. intros chunk Hin.
  apply in_map_iff in Hin as [k [<- Hk]]. apply in_seq in Hk.
  rewrite slice_length. lia.
Qed.

Section Loop.
Variable upstream : nat -> string -> list Video.t.
Hypothesis Hcounts : counts_readable upstream.

Lemma stat_of_readable k chunk item :
  In item (upstream k chunk) -> stat_of item = Ok (pair_of item).
Proof.
  intros Hin. unfold stat_of, pair_of, views_of.
  destruct (Video.viewCount item) as [s|] eqn:Hs; [|reflexivity].
  pose proof (PyFacts.readable_ok _ (Hcounts k chunk item s Hin Hs)) as Hok.
  destruct (int s); [reflexivity|discriminate].
Qed.

Lemma append_stats_readable k chunk items all_stats :
  incl items (upstream k chunk) ->
  append_stats items all_stats = Ok (all_stats ++ map pair_of items).
Proof.
  revert all_stats. induction items as [|item items IH]; intros all_stats Hincl; simpl.
  - now rewrite app_nil_r.
  - rewrite (stat_of_readable k chunk item) by (apply Hincl; now left). simpl.
    rewrite IH by (intros x Hx; apply Hincl; now right).
    now rewrite <- app_assoc.
Qed.

Lemma fetch_loop_readable video_ids starts c all_stats :
  let requested :=
    map (fun i => join "," (slice video_ids i (i + 50))) starts in
  fetch_loop upstream video_ids starts c all_stats
  = ({| requests := requests c ++ requested |},
     Ok (all_stats
         ++ map pair_of (responses upstream (List.length (requests c)) requested))).
Proof.
  revert c all_stats. induction starts as [|i starts IH]; intros c all_stats; simpl.
  - rewrite !app_nil_r. now destruct c.
  - rewrite (append_stats_readable (List.length (requests c)) _ _ _ (incl_refl _)).
    rewrite IH. simpl. rewrite length_app, Nat.add_1_r, <- !app_assoc, map_app.
    reflexivity.
Qed.

End Loop.

(** C8.  With an upstream whose view counts are numeric text, the
    fetcher cuts the identifier list into consecutive slices that cover
    it, none empty, none longer than 50 and all but the last of exactly
    50; it sends one request per slice, in order, with the slice joined
    by commas; and it returns the items of the responses, one response
    after the other and each in the order the upstream gave, as
    [(id, current_views)] pairs, a missing [viewCount] counting as 0. *)
Theorem fetch_current_views_batches upstream video_ids c :
  counts_readable upstream ->
  let chunks := slices video_ids in
  let requested := map (join ",") chunks in
  List.concat chunks = video_ids /\
  Forall (fun chunk => (1 <= List.length chunk <= 50)%nat) chunks /\
  Forall (fun chunk => List.length chunk = 50%nat) (removelast chunks) /\
  fetch_current_views upstream video_ids c
  = ({| requests := requests c ++ requested |},
     Ok (map pair_of (responses upstream (List.length (requests c)) requested))) /\
  (forall item, Video.viewCount item = None ->
                Stat.current_views (pair_of item) = 0).
Proof.
  intros Hread chunks requested.
  split; [apply concat_slices|]. split; [apply slices_bounds|].
  split; [apply slices_full|]. split.
  - unfold fetch_current_views. rewrite (fetch_loop_readable upstream Hread).
    subst requested chunks. unfold slices. rewrite map_map. reflexivity.
  - intros item Hnone. unfold pair_of, views_of. simpl. now rewrite Hnone.
Qed.

End Fetcher.

(** * The catalog store *)

Module Catalog.

Lemma in_ids_iff known k : in_ids known k = true <-> In k known.
Proof.
  unfold in_ids. rewrite existsb_exists. split.
  - intros [x [Hx Heq]]. apply String.eqb_eq in Heq. now subst.
  - intros H. exists k. split; [exact H|apply String.eqb_refl].
Qed.

Lemma append_new_rows known videos rows :
  fold_left (fun f v => if in_ids known (Item.video_id v) then f
                        else writerow run_into f v)
            videos (Table rows)
  = Table (rows ++ filter (fun v => negb (in_ids known (Item.video_id v))) videos).
Proof.
  revert rows. induction videos as [|v videos IH]; intros rows; simpl.
  - now rewrite app_nil_r.
  - destruct (in_ids known (Item.video_id v)); simpl.
    + apply IH.
    + unfold writerow. simpl. rewrite IH, <- app_assoc. reflexivity.
Qed.



(** A call keeps the rows it finds in a terminated file, in place, and
    appends the discovered items whose id was not among them. *)
Lemma save_videos_csv_rows videos fs :
  last_line_terminated (VIDEOS_CSV fs) = true ->
  let rows := DictReader (VIDEOS_CSV fs) in
  VIDEOS_CSV (save_videos_csv videos fs)
  = Table (rows ++ filter (fun v => negb (in_ids (item_ids rows) (Item.video_id v)))
                          videos).
Proof.
  unfold save_videos_csv. destruct (VIDEOS_CSV fs) as [| |rows|rows]; intros Hterm;
    try discriminate Hterm;
    cbn [path_exists DictReader open_append st_size_is_zero writeheader VIDEOS_CSV];
    rewrite append_new_rows; reflexivity.
Qed.

Lemma save_videos_csv_terminates videos fs :
  last_line_terminated (VIDEOS_CSV fs) = true ->
  last_line_terminated (VIDEOS_CSV (save_videos_csv videos fs)) = true.
Proof. intros H. now rewrite (save_videos_csv_rows videos fs H). Qed.







(** C6.  A discovery that lists one id twice, saved into an absent
    catalog: both items are appended, because the ids read at the start
    are not extended while rows are written, and the table then holds two
    rows with the same [video_id]. *)
Theorem catalog_repeats_id_of_one_discovery :
  let videos := [discovered "A" "first"; discovered "A" "again"] in
  let fs' := save_videos_csv videos no_files in
  VIDEOS_CSV fs' = Table videos /\
  item_ids (DictReader (VIDEOS_CSV fs')) = ["A"; "A"] /\
  ~ NoDup (item_ids (DictReader (VIDEOS_CSV fs'))).
Proof.
  cbv zeta. split; [reflexivity|]. split; [reflexivity|].
  intros H. inversion H as [|? ? Hin _]. apply Hin. now left.
Qed.

End Catalog.

(** * The statements at sample inputs *)

Module Samples.
Import Py.

Lemma sample_table_readable : rows_readable (ALL_VIEWS_CSV sample_files).
Proof. unfold rows_readable. simpl. repeat constructor. Defined.


(** C9 at the batch [A 100; B 10; A 100] on no files: the total after
    the second [A] is the total before it. *)
Lemma repeated_id_sample :
  ~ In "A" (ids [measured "B" 10]) /\
  exists fs1 rep1 fs2 rep2,
    update_allvideoviews "t1" [measured "A" 100; measured "B" 10] no_files
    = Ok (fs1, rep1) /\
    update_allvideoviews "t1" [measured "A" 100; measured "B" 10; measured "A" 100]
                         no_files
    = Ok (fs2, rep2) /\
    new_views rep1 = 110 /\
    new_views rep2 = new_views rep1 + Z.max 0 (100 - 100).
Proof.
  assert (H1 : ~ In "A" (ids [measured "B" 10])).
  { simpl. intros [H|[]]. discriminate H. }
  split; [exact H1|].
  destruct (Reconciler.repeated_id_within_batch "t1" no_files [] "A" 100
              [measured "B" 10] 100 [] (Forall_nil _) H1 (fun H => H))
    as [fs1 [rep1 [fs2 [rep2 [fs3 [rep3 [Hrun1 [Hrun2 [_ [_ [Hnew _]]]]]]]]]]].
  exists fs1, rep1, fs2, rep2. split; [exact Hrun1|]. split; [exact Hrun2|].
  split; [|exact Hnew].
  cbn [app] in Hrun1. vm_compute in Hrun1. injection Hrun1 as _ <-. reflexivity.
Defined.


(** C10 at a table that holds two rows for [A]. *)
Lemma one_row_per_id_sample :
  exists fs' rep rows',
    update_allvideoviews "t1" [measured "B" 10] sample_files = Ok (fs', rep) /\
    ALL_VIEWS_CSV fs' = Table rows' /\
    NoDup (row_ids rows').
Proof.
  destruct (Reconciler.rewritten_table_one_row_per_id "t1" [measured "B" 10]
              sample_files sample_table_readable)
    as [fs' [rep [rows' [Hrun [Htable [Hnd _]]]]]].
  now exists fs', rep, rows'.
Defined.

(** C5 at the batch [A 100; B 10], run twice from nothing. *)
Lemma second_run_sample :
  exists fs1 rep1 fs2 rep2,
    update_allvideoviews "t1" [measured "A" 100; measured "B" 10] no_files
    = Ok (fs1, rep1) /\
    update_allvideoviews "t2" [measured "A" 100; measured "B" 10] fs1
    = Ok (fs2, rep2) /\
    cumulative rep1 = 110 /\ new_views rep2 = 0 /\ cumulative rep2 = 110.
Proof.
  set (batch := [measured "A" 100; measured "B" 10]).
  destruct (update_allvideoviews "t1" batch no_files) as [[fs1 rep1]|] eqn:Hrun1;
    [|discriminate Hrun1].
  assert (Hsame : forall s, In s batch ->
            exists checked,
              In {| ViewRow.video_id := Stat.video_id s;
                    ViewRow.last_views := str (Stat.current_views s);
                    ViewRow.last_checked := checked |}
                 (DictReader (ALL_VIEWS_CSV fs1))).
  { injection Hrun1 as <- _. intros s [<-|[<-|[]]]; exists "t1"; simpl; auto. }
  destruct (Reconciler.second_run_same_counts "t1" batch "t2" batch no_files fs1 rep1
              Hrun1 Hsame) as [fs2 [rep2 [Hrun2 [Hnew [Hcum _]]]]].
  exists fs1, rep1, fs2, rep2. split; [reflexivity|]. split; [exact Hrun2|].
  injection Hrun1 as _ <-. rewrite Hcum. simpl in *. auto.
Defined.

(** C7 at a total file that reads [n/a]: the 50 views [A] gained are
    the new views and the whole cumulative total. *)
Lemma unreadable_total_sample :
  ascii_text "n/a" = true /\
  int (strip "n/a") = Raise ValueError /\
  load_cumulative_total (SUMTOTAL_TXT garbled_total) = 0 /\
  exists fs' rep,
    update_allvideoviews "t1" [measured "A" 150] garbled_total = Ok (fs', rep) /\
    new_views rep = 50 /\
    cumulative rep = 50 /\
    In (recorded "A" "150" "t1") (DictReader (ALL_VIEWS_CSV fs')).
Proof.
  split; [reflexivity|]. split; [reflexivity|].
  destruct (Reconciler.unreadable_total_loads_as_zero "t1" [measured "A" 150]
              garbled_total
              (or_intror (ex_intro _ "n/a" (conj eq_refl (conj eq_refl eq_refl))))
              sample_table_readable)
    as [Hzero [_ [fs' [rep [Hrun [Hnew [Hcum [_ Hrows]]]]]]]].
  split; [exact Hzero|]. exists fs', rep. split; [exact Hrun|].
  rewrite Hcum, Hnew. split; [reflexivity|]. split; [reflexivity|].
  exact (Hrows "A" 150 eq_refl).
Defined.



Lemma sample_upstream_readable : counts_readable sample_upstream.
Proof.
  intros k chunk item s [<-|[]]. simpl. destruct (Nat.eqb k 0); [|discriminate].
  intros [= <-]. reflexivity.
Defined.

(** C8 at 120 identifiers: three requests, of 50, 50 and 20. *)
Lemma fetch_batches_sample :
  map (@List.length string) (slices sample_ids) = [50; 50; 20]%nat /\
  exists requested,
    List.length requested = 3%nat /\
    fetch_current_views sample_upstream sample_ids fresh_client
    = ({| requests := requested |},
       Ok (map pair_of (responses sample_upstream 0 requested))).
Proof.
  split; [reflexivity|].
  destruct (Fetcher.fetch_current_views_batches sample_upstream sample_ids fresh_client
              sample_upstream_readable) as [_ [_ [_ [Hfetch _]]]].
  eexists. split; [|exact Hfetch]. reflexivity.
Defined.

End Samples.

(** * More on the catalog store *)

Module CatalogStore.
Import Catalog.

Lemma save_videos_csv_fields videos fs :
  save_videos_csv videos fs
  = {| VIDEOS_CSV := VIDEOS_CSV (save_videos_csv videos fs);
       ALL_VIEWS_CSV := ALL_VIEWS_CSV fs;
       SUMTOTAL_TXT := SUMTOTAL_TXT fs |}.
Proof. reflexivity. Qed.

Lemma filter_none {A : Type} (f : A -> bool) (l : list A) :
  Forall (fun x => f x = false) l -> filter f l = [].
Proof.
  induction 1 as [|x l Hx _ IH]; simpl; [reflexivity|]. now rewrite Hx.
Qed.

(** After a call on a terminated file every discovered id is among the
    ids of the table. *)
Lemma discovered_ids_saved videos fs :
  last_line_terminated (VIDEOS_CSV fs) = true ->
  Forall (fun v => In (Item.video_id v)
                      (item_ids (DictReader (VIDEOS_CSV (save_videos_csv videos fs)))))
         videos.
Proof.
  intros Hterm. rewrite (save_videos_csv_rows videos fs Hterm). cbv zeta.
  cbn [DictReader]. set (rows := DictReader (VIDEOS_CSV fs)).
  apply Forall_forall. intros v Hv. unfold item_ids at 1. rewrite map_app, in_app_iff.
  destruct (in_ids (item_ids rows) (Item.video_id v)) eqn:E.
  - left. now apply in_ids_iff.
  - right. apply in_map. apply filter_In. split; [exact Hv|]. now rewrite E.
Qed.

(** On a [videos.csv] whose last line is terminated (or that is absent
    or empty), a call leaves the rows it finds where they are and as they
    are, and appends, in discovery order, exactly the discovered items
    whose id was not in the table when the call began; the file has its
    header afterwards even when nothing was discovered, and the two other
    files are not touched. *)
Theorem save_videos_csv_appends_unseen videos fs :
  last_line_terminated (VIDEOS_CSV fs) = true ->
  let rows := DictReader (VIDEOS_CSV fs) in
  let unseen v := negb (in_ids (item_ids rows) (Item.video_id v)) in
  save_videos_csv videos fs
  = {| VIDEOS_CSV := Table (rows ++ filter unseen videos);
       ALL_VIEWS_CSV := ALL_VIEWS_CSV fs;
       SUMTOTAL_TXT := SUMTOTAL_TXT fs |}.
Proof.
  intros Hterm. cbv zeta. rewrite save_videos_csv_fields at 1. f_equal.
  now apply save_videos_csv_rows.
Qed.

(** On a [videos.csv] whose last line is terminated, every discovered
    id is in the catalog once the call returns, whether the call appended
    it or found it there. *)
Theorem save_videos_csv_covers_discovery videos fs :
  last_line_terminated (VIDEOS_CSV fs) = true ->
  let fs' := save_videos_csv videos fs in
  Forall (fun v => in_ids (item_ids (DictReader (VIDEOS_CSV fs'))) (Item.video_id v) = true)
         videos.
Proof.
  intros Hterm. cbv zeta. pose proof (discovered_ids_saved videos fs Hterm) as H.
  apply Forall_forall. intros v Hv. apply in_ids_iff.
  now apply (proj1 (Forall_forall _ _) H).
Qed.

(** On a [videos.csv] whose last line is terminated, saving the same
    discovery a second time changes nothing, also when the discovery
    lists an id more than once. *)
Theorem save_videos_csv_twice videos fs :
  last_line_terminated (VIDEOS_CSV fs) = true ->
  save_videos_csv videos (save_videos_csv videos fs) = save_videos_csv videos fs.
Proof.
  intros Hterm. pose proof (save_videos_csv_terminates videos fs Hterm) as Hterm'.
  rewrite (save_videos_csv_fields videos (save_videos_csv videos fs)).
  rewrite (save_videos_csv_fields videos fs) at 4.
  cbn [ALL_VIEWS_CSV SUMTOTAL_TXT save_videos_csv]. f_equal.
  rewrite (save_videos_csv_rows videos (save_videos_csv videos fs) Hterm'). cbv zeta.
  set (rows' := DictReader (VIDEOS_CSV (save_videos_csv videos fs))).
  rewrite filter_none.
  - rewrite app_nil_r. subst rows'. now rewrite (save_videos_csv_rows videos fs Hterm).
  - pose proof (discovered_ids_saved videos fs Hterm) as H. fold rows' in H.
    apply Forall_forall. intros v Hv. apply negb_false_iff. apply in_ids_iff.
    now apply (proj1 (Forall_forall _ _) H).
Qed.

(** From a [videos.csv] whose last line is terminated, whatever is
    discovered, in however many calls, the rows the catalog had stay at
    its head, in order and unchanged: the table only grows at its end. *)
Theorem catalog_only_grows discoveries fs :
  last_line_terminated (VIDEOS_CSV fs) = true ->
  exists added,
    VIDEOS_CSV (catalog_runs discoveries fs)
    = match discoveries with
      | [] => VIDEOS_CSV fs
      | _ => Table (DictReader (VIDEOS_CSV fs) ++ added)
      end.
Proof.
  revert fs. induction discoveries as [|videos discoveries IH]; intros fs Hterm.
  - now exists [].
  - destruct (IH (save_videos_csv videos fs) (save_videos_csv_terminates _ _ Hterm))
      as [added Hadded].
    change (catalog_runs (videos :: discoveries) fs)
      with (catalog_runs discoveries (save_videos_csv videos fs)).
    rewrite Hadded, (save_videos_csv_rows videos fs Hterm). cbv zeta. cbn [DictReader].
    destruct discoveries.
    + eexists. reflexivity.
    + rewrite <- app_assoc. eexists. reflexivity.
Qed.


End CatalogStore.

(** * More on the delta reconciler *)

Module DeltaReconciler.
Import Py DictFacts ReconcilerFacts.

Lemma update_allvideoviews_inv now api_callout fs fs' rep :
  update_allvideoviews now api_callout fs = Ok (fs', rep) ->
  exists loaded,
    load_existing (ALL_VIEWS_CSV fs) = Ok loaded /\
    let t := reconcile now api_callout (start_tally loaded fs) in
    fs' = {| VIDEOS_CSV := VIDEOS_CSV fs;
             ALL_VIEWS_CSV := Table (map row_of (existing t));
             SUMTOTAL_TXT := Some (str (cumulative_total t)) |} /\
    rep = {| new_views := total_new_views t; cumulative := cumulative_total t |} /\
    NoDup (keys (existing t)).
Proof.
  intros Hrun.
  destruct (load_existing (ALL_VIEWS_CSV fs)) as [loaded|e] eqn:Hload;
    [|unfold update_allvideoviews in Hrun; rewrite Hload in Hrun; discriminate].
  exists loaded. split; [reflexivity|].
  rewrite (update_allvideoviews_loaded _ _ _ _ Hload) in Hrun. cbv zeta in *.
  injection Hrun as <- <-. repeat split.
  apply reconcile_keys_nodup. exact (start_tally_nodup _ fs _ Hload).
Qed.

Section Keys.
Context {V : Type}.

Lemma keys_set (d : dict V) k v :
  keys (dict_set d k v) = if in_ids (keys d) k then keys d else keys d ++ [k].
Proof.
  induction d as [|[k' v'] d IH]; [reflexivity|].
  cbn [dict_set]. unfold in_ids. cbn [keys map fst existsb].
  rewrite (String.eqb_sym k k').
  destruct (String.eqb k' k); cbn [map fst orb]; [reflexivity|].
  change (keys ((k', v') :: dict_set d k v)) with (k' :: keys (dict_set d k v)).
  rewrite IH. unfold in_ids, keys.
  now destruct (existsb (String.eqb k) (map fst d)).
Qed.

End Keys.

Lemma reconcile_keys_order now batch t :
  keys (existing (reconcile now batch t))
  = keys (existing t) ++ new_ids (keys (existing t)) (ids batch).
Proof.
  revert t. induction batch as [|s batch IH]; intros t.
  - simpl. now rewrite app_nil_r.
  - rewrite reconcile_cons, IH. cbn [existing reconcile_one ids map new_ids].
    rewrite keys_set. fold (ids batch).
    destruct (in_ids (keys (existing t)) (Stat.video_id s)); [reflexivity|].
    now rewrite <- app_assoc.
Qed.

Lemma load_rows_keys_order rows d0 d :
  NoDup (keys d0 ++ row_ids rows) ->
  load_rows rows d0 = Ok d -> keys d = keys d0 ++ row_ids rows.
Proof.
  revert d0. induction rows as [|row rows IH]; intros d0 Hnd; simpl.
  - intros [= <-]. now rewrite app_nil_r.
  - destruct (int (ViewRow.last_views row)) as [views|]; simpl; [|discriminate].
    intros Hload. simpl in Hnd.
    assert (Hfresh : ~ In (ViewRow.video_id row) (keys d0)).
    { apply NoDup_remove_2 in Hnd. rewrite in_app_iff in Hnd. tauto. }
    apply IH in Hload.
    + rewrite Hload, (set_fresh _ _ _ Hfresh). unfold keys. rewrite map_app, <- app_assoc.
      reflexivity.
    + rewrite (set_fresh _ _ _ Hfresh). unfold keys in *. rewrite map_app, <- app_assoc.
      exact Hnd.
Qed.

Lemma load_rows_raises rows d0 row :
  In row rows -> int (ViewRow.last_views row) = Raise ValueError ->
  load_rows rows d0 = Raise ValueError.
Proof.
  revert d0. induction rows as [|row0 rows IH]; intros d0 Hin Hbad; [destruct Hin|].
  simpl. destruct (int (ViewRow.last_views row0)) as [views|[]] eqn:E; simpl;
    [|reflexivity].
  destruct Hin as [->|Hin]; [congruence|now apply IH].
Qed.

(** One row whose [last_views] is ASCII text that [int] rejects makes
    the run raise [ValueError], wherever the row stands in the table,
    whatever the batch and whatever [sumtotal.txt] holds. *)
Theorem unreadable_row_raises now api_callout fs row :
  In row (DictReader (ALL_VIEWS_CSV fs)) ->
  ascii_text (ViewRow.last_views row) = true ->
  int (ViewRow.last_views row) = Raise ValueError ->
  update_allvideoviews now api_callout fs = Raise ValueError.
Proof.
  intros Hin _ Hbad. unfold update_allvideoviews, load_existing.
  destruct (ALL_VIEWS_CSV fs) as [| |rows|rows]; try destruct Hin;
    cbn [path_exists DictReader] in *;
    now rewrite (load_rows_raises _ [] row Hin Hbad).
Qed.

(** What a run writes, the next run can read: the table it leaves is
    readable, so no later run raises on it, and the total it leaves loads
    as the cumulative total it reported. *)
Theorem run_leaves_readable_files now api_callout fs fs' rep :
  update_allvideoviews now api_callout fs = Ok (fs', rep) ->
  rows_readable (ALL_VIEWS_CSV fs') /\
  load_cumulative_total (SUMTOTAL_TXT fs') = cumulative rep /\
  forall now' api_callout',
    is_ok (update_allvideoviews now' api_callout' fs') = true.
Proof.
  intros Hrun.
  destruct (update_allvideoviews_inv _ _ _ _ _ Hrun) as [loaded [Hload [-> [-> Hnd]]]].
  cbn [ALL_VIEWS_CSV SUMTOTAL_TXT cumulative].
  pose proof (load_existing_written _ Hnd) as Hnext.
  split; [|split].
  - apply written_rows_readable.
  - apply load_cumulative_total_written.
  - intros now' api_callout'.
    match goal with
    | |- context [update_allvideoviews _ _ ?f] =>
        now rewrite (update_allvideoviews_loaded now' api_callout' f _ Hnext)
    end.
Qed.

(** The two figures a run reports belong together: the cumulative total
    is the total loaded at the start plus this run's new views; it is the
    integer written to [sumtotal.txt]; and the run does not touch
    [videos.csv]. *)
Theorem report_adds_up now api_callout fs fs' rep :
  update_allvideoviews now api_callout fs = Ok (fs', rep) ->
  cumulative rep = load_cumulative_total (SUMTOTAL_TXT fs) + new_views rep /\
  SUMTOTAL_TXT fs' = Some (str (cumulative rep)) /\
  VIDEOS_CSV fs' = VIDEOS_CSV fs.
Proof.
  intros Hrun.
  destruct (update_allvideoviews_inv _ _ _ _ _ Hrun) as [loaded [Hload [-> [-> _]]]].
  cbn [VIDEOS_CSV SUMTOTAL_TXT cumulative new_views].
  pose proof (reconcile_totals_together now api_callout (start_tally loaded fs)) as H.
  cbn [start_tally cumulative_total total_new_views] in H.
  repeat split. lia.
Qed.

(** A run with an empty batch on the files a run has written rewrites
    them as they are: same rows in the same order, same total text, and
    it reports no new views. *)
Theorem empty_batch_changes_nothing now api_callout now' fs fs' rep :
  update_allvideoviews now api_callout fs = Ok (fs', rep) ->
  update_allvideoviews now' [] fs'
  = Ok (fs', {| new_views := 0; cumulative := cumulative rep |}).
Proof.
  intros Hrun.
  destruct (update_allvideoviews_inv _ _ _ _ _ Hrun) as [loaded [Hload [-> [-> Hnd]]]].
  match goal with
  | |- context [update_allvideoviews _ _ ?f] =>
      rewrite (update_allvideoviews_loaded now' [] f _ (load_existing_written _ Hnd))
  end.
  cbn [reconcile fold_left start_tally existing total_new_views cumulative_total
       VIDEOS_CSV SUMTOTAL_TXT cumulative].
  now rewrite load_cumulative_total_written.
Qed.

(** The rewrite keeps the order of a table without repeated ids: the ids
    it had come first, in their order, followed by the ids the batch
    brings for the first time, each once, in the order the batch first
    mentions them. *)
Theorem rewritten_table_keeps_row_order now api_callout fs fs' rep :
  NoDup (row_ids (DictReader (ALL_VIEWS_CSV fs))) ->
  update_allvideoviews now api_callout fs = Ok (fs', rep) ->
  row_ids (DictReader (ALL_VIEWS_CSV fs'))
  = row_ids (DictReader (ALL_VIEWS_CSV fs))
    ++ new_ids (row_ids (DictReader (ALL_VIEWS_CSV fs))) (ids api_callout).
Proof.
  intros Hnd Hrun.
  destruct (update_allvideoviews_inv _ _ _ _ _ Hrun) as [loaded [Hload [-> _]]].
  cbn [ALL_VIEWS_CSV DictReader]. rewrite row_ids_written, reconcile_keys_order.
  cbn [start_tally existing].
  now rewrite (load_rows_keys_order _ [] loaded Hnd (load_existing_rows _ _ Hload)).
Qed.

(** Every id of the batch ends up in the table with the count of its
    last measurement in the batch and the time of the run. *)
Theorem batch_ids_stored_with_last_count now api_callout fs fs' rep vid views :
  update_allvideoviews now api_callout fs = Ok (fs', rep) ->
  previous_views api_callout vid = Some views ->
  In {| ViewRow.video_id := vid;
        ViewRow.last_views := str views;
        ViewRow.last_checked := now |} (DictReader (ALL_VIEWS_CSV fs')).
Proof.
  intros Hrun Hlast.
  destruct (update_allvideoviews_inv _ _ _ _ _ Hrun) as [loaded [Hload [-> [_ Hnd]]]].
  cbn [ALL_VIEWS_CSV DictReader]. apply (in_written _ _ Hnd). cbn [ViewRow.video_id].
  eexists. split; [exact (reconcile_last now _ _ _ _ Hlast)|reflexivity].
Qed.

End DeltaReconciler.

(** * More on the metric fetcher *)

Module MetricFetcher.
Import Py.

Lemma requested_slices video_ids :
  map (join ",") (slices video_ids)
  = map (chunk_at video_ids) (range_step (List.length video_ids) 50).
Proof. unfold slices. now rewrite map_map. Qed.

Lemma append_stats_all_readable items all_stats :
  (forall item s, In item items -> Video.viewCount item = Some s ->
                  is_ok (int s) = true) ->
  append_stats items all_stats = Ok (all_stats ++ map pair_of items).
Proof.
  revert all_stats. induction items as [|item items IH]; intros all_stats Hread; simpl.
  - now rewrite app_nil_r.
  - assert (Hitem : stat_of item = Ok (pair_of item)).
    { unfold stat_of, pair_of, views_of.
      destruct (Video.viewCount item) as [s|] eqn:Hs; [|reflexivity].
      pose proof (Hread item s (or_introl eq_refl) Hs) as Hok.
      destruct (int s); [reflexivity|discriminate]. }
    rewrite Hitem. simpl. rewrite IH by (intros it s Hin; apply Hread; now right).
    now rewrite <- app_assoc.
Qed.

Lemma append_stats_unreadable items all_stats item s :
  In item items -> Video.viewCount item = Some s -> int s = Raise ValueError ->
  append_stats items all_stats = Raise ValueError.
Proof.
  revert all_stats. induction items as [|item0 items IH]; intros all_stats Hin Hs Hbad;
    [destruct Hin|]. simpl.
  destruct (stat_of item0) as [s0|[]] eqn:H0; simpl; [|reflexivity].
  destruct Hin as [->|Hin]; [|now apply IH].
  unfold stat_of in H0. rewrite Hs, Hbad in H0. discriminate.
Qed.

Lemma fetch_loop_sent upstream video_ids starts c all_stats :
  let requested := map (chunk_at video_ids) starts in
  let out := fetch_loop upstream video_ids starts c all_stats in
  exists j, (j <= List.length starts)%nat /\
            requests (fst out) = requests c ++ firstn j requested /\
            (is_ok (snd out) = true -> j = List.length starts).
Proof.
  revert c all_stats. induction starts as [|i starts IH]; intros c all_stats; cbv zeta.
  - exists 0%nat. simpl. rewrite app_nil_r. auto.
  - cbn [fetch_loop videos_list].
    destruct (append_stats _ all_stats) as [all_stats'|e].
    + destruct (IH {| requests := requests c ++ [chunk_at video_ids i] |} all_stats')
        as [j [Hj [Hreq Hok]]].
      exists (S j). cbn [List.length map firstn]. split; [lia|].
      fold (chunk_at video_ids i). rewrite Hreq. cbn [requests].
      rewrite <- app_assoc. split; [reflexivity|]. intros H. f_equal. now apply Hok.
    + exists 1%nat. cbn [List.length map firstn fst snd requests is_ok].
      split; [lia|]. split; [reflexivity|discriminate].
Qed.

Lemma fetch_loop_stops upstream video_ids starts c all_stats k item s :
  let requested := map (chunk_at video_ids) starts in
  (k < List.length starts)%nat ->
  (forall j, (j < k)%nat -> forall it s',
     In it (upstream (List.length (requests c) + j)%nat (nth j requested "")) ->
     Video.viewCount it = Some s' -> is_ok (int s') = true) ->
  In item (upstream (List.length (requests c) + k)%nat (nth k requested "")) ->
  Video.viewCount item = Some s -> int s = Raise ValueError ->
  fetch_loop upstream video_ids starts c all_stats
  = ({| requests := requests c ++ firstn (S k) requested |}, Raise ValueError).
Proof.
  cbv zeta. revert c all_stats k.
  induction starts as [|i starts IH]; intros c all_stats k Hk Hbefore Hin Hs Hbad;
    [simpl in Hk; lia|].
  cbn [fetch_loop videos_list]. fold (chunk_at video_ids i).
  destruct k as [|k].
  - rewrite Nat.add_0_r in Hin. cbn [map nth] in Hin.
    rewrite (append_stats_unreadable _ _ item s Hin Hs Hbad). reflexivity.
  - rewrite append_stats_all_readable.
    + rewrite (IH _ _ k); cbn [requests map firstn].
      * now rewrite <- app_assoc.
      * simpl in Hk. lia.
      * intros j Hj it s' Hit. rewrite length_app in Hit. cbn [List.length] in Hit.
        replace (List.length (requests c) + 1 + j)%nat
          with (List.length (requests c) + S j)%nat in Hit by lia.
        apply (Hbefore (S j)); [lia|exact Hit].
      * rewrite length_app. cbn [List.length].
        replace (List.length (requests c) + 1 + k)%nat
          with (List.length (requests c) + S k)%nat by lia.
        exact Hin.
      * exact Hs.
      * exact Hbad.
    + intros it s' Hit. apply (Hbefore 0%nat); [lia|].
      now rewrite Nat.add_0_r.
Qed.

(** The fetcher never sends more requests than there are slices of 50
    identifiers, none at all for an empty list; the requests it sends are
    the first of those slices, in order, after what the client had sent
    before; and when it returns a result it has sent them all. *)
Theorem fetch_current_views_request_count upstream video_ids c :
  let out := fetch_current_views upstream video_ids c in
  let requested := map (join ",") (slices video_ids) in
  List.length requested = ((List.length video_ids + 49) / 50)%nat /\
  exists sent,
    (sent <= List.length requested)%nat /\
    requests (fst out) = requests c ++ firstn sent requested /\
    (is_ok (snd out) = true -> sent = List.length requested).
Proof.
  cbv zeta. split.
  - unfold slices, range_step. rewrite !length_map, length_seq. f_equal. lia.
  - rewrite requested_slices. unfold fetch_current_views.
    destruct (fetch_loop_sent upstream video_ids
                (range_step (List.length video_ids) 50) c []) as [j [Hj [Hreq Hok]]].
    exists j. rewrite length_map. auto.
Qed.

(** A view count that is not a number stops the fetch: when the answers
    to the first [k] requests hold only counts that are ASCII text [int]
    accepts and the answer to the next one holds an item whose
    [viewCount] is ASCII text [int] rejects, the fetcher raises
    [ValueError] after that request and sends none of the later ones. *)
Theorem fetch_current_views_stops_at_bad_count upstream video_ids c k item s :
  let requested := map (join ",") (slices video_ids) in
  (k < List.length requested)%nat ->
  (forall j, (j < k)%nat -> forall it s',
     In it (upstream (List.length (requests c) + j)%nat (nth j requested "")) ->
     Video.viewCount it = Some s' -> readable s' = true) ->
  In item (upstream (List.length (requests c) + k)%nat (nth k requested "")) ->
  Video.viewCount item = Some s ->
  ascii_text s = true ->
  int s = Raise ValueError ->
  fetch_current_views upstream video_ids c
  = ({| requests := requests c ++ firstn (S k) requested |}, Raise ValueError).
Proof.
  cbv zeta. rewrite requested_slices. intros Hk Hbefore Hin Hs _ Hbad.
  unfold fetch_current_views. rewrite length_map in Hk.
  apply (fetch_loop_stops upstream video_ids _ c [] k item s); trivial.
  intros j Hj it s' Hit Hs'. apply PyFacts.readable_ok. now apply (Hbefore j Hj it).
Qed.

End MetricFetcher.

(** * Catalog discovery *)

Module Discovery.

Lemma discover_loop_served api playlist_id k next_page pages :
  served api playlist_id k next_page pages ->
  forall steps videos,
    (List.length pages <= steps)%nat ->
    discover_loop api steps playlist_id k next_page videos
    = Returned (videos ++ map item_of (flat_map page_items pages)).
Proof.
  induction 1 as [k next_page Hlast|k next_page later Hmore _ IH];
    intros steps videos Hsteps;
    (destruct steps as [|steps]; [simpl in Hsteps; lia|]); cbn [discover_loop].
  - rewrite Hlast. cbn [flat_map]. now rewrite app_nil_r.
  - rewrite Hmore. rewrite IH by (simpl in Hsteps; lia).
    cbn [flat_map]. now rewrite map_app, app_assoc.
Qed.

Lemma discover_loop_steps api playlist_id steps k next_page videos :
  (forall j, (j < steps)%nat -> forall token,
     no_more (nextPageToken (playlist_items api (k + j) playlist_id token)) = false) ->
  discover_loop api steps playlist_id k next_page videos = Unfinished.
Proof.
  revert k next_page videos. induction steps as [|steps IH];
    intros k next_page videos Hmore; [reflexivity|].
  cbn [discover_loop]. pose proof (Hmore 0%nat ltac:(lia) next_page) as H0.
  rewrite Nat.add_0_r in H0. rewrite H0. apply IH.
  intros j Hj token. replace (S k + j)%nat with (k + S j)%nat by lia.
  apply Hmore. lia.
Qed.

(** Discovery follows the continuation tokens to the end: when the
    upstream serves [pages] from the first request on, each page but the
    last with a token that is neither absent nor empty, discovery returns
    the entries of all the pages, in page order and in the order within
    each page, as soon as it may make as many requests as there are
    pages. *)
Theorem discover_videos_follows_pages api playlist_id pages steps :
  get_uploads_playlist_id api = Returned playlist_id ->
  served api playlist_id 0 None pages ->
  (List.length pages <= steps)%nat ->
  discover_videos api steps
  = Returned (map item_of (flat_map page_items pages)).
Proof.
  intros Hid Hserved Hsteps. unfold discover_videos. rewrite Hid.
  now rewrite (discover_loop_served _ _ _ _ _ Hserved steps []).
Qed.

(** An upstream that hands out a token with every page keeps discovery
    asking: however many requests it may make, it does not return. *)
Theorem discover_videos_needs_last_page api playlist_id steps :
  get_uploads_playlist_id api = Returned playlist_id ->
  (forall k token,
     no_more (nextPageToken (playlist_items api k playlist_id token)) = false) ->
  discover_videos api steps = Unfinished.
Proof.
  intros Hid Hmore. unfold discover_videos. rewrite Hid.
  apply discover_loop_steps. intros j _ token. apply Hmore.
Qed.

End Discovery.

(** * One iteration of the run loop *)

Module RunLoop.
Import Py.

(** An iteration that completes has asked for the statistics of exactly
    the discovered ids, in discovery order and 50 at a time; the catalog
    it leaves is the one the catalog writer made of the discovery; and
    the total it reports is the total it found plus the new views. *)
Theorem completed_iteration api upstream steps now fs c videos fs' c' r :
  discover_videos api steps = Returned videos ->
  run_once api upstream steps now fs c = (fs', c', Run_complete r) ->
  requests c'
  = requests c ++ map (join ",") (slices (map Item.video_id videos)) /\
  VIDEOS_CSV fs' = VIDEOS_CSV (save_videos_csv videos fs) /\
  cumulative r = load_cumulative_total (SUMTOTAL_TXT fs) + new_views r.
Proof.
  intros Hfound Hrun. unfold run_once in Hrun. rewrite Hfound in Hrun.
  pose proof (MetricFetcher.fetch_loop_sent upstream (map Item.video_id videos)
                (range_step (List.length (map Item.video_id videos)) 50) c [])
    as [j [_ [Hreq Hall]]].
  fold (fetch_current_views upstream (map Item.video_id videos) c) in Hreq, Hall.
  destruct (fetch_current_views upstream (map Item.video_id videos) c)
    as [c1 [api_callout|e]]; [|discriminate].
  destruct (update_allvideoviews now api_callout (save_videos_csv videos fs))
    as [[fs2 r2]|e] eqn:Hupdate; [|discriminate].
  injection Hrun as <- <- <-.
  destruct (DeltaReconciler.update_allvideoviews_inv _ _ _ _ _ Hupdate)
    as [loaded [Hload [-> [-> _]]]].
  cbn [fst snd is_ok] in Hreq, Hall. rewrite Hreq, (Hall eq_refl).
  rewrite MetricFetcher.requested_slices, firstn_all2 by (rewrite length_map; lia).
  split; [reflexivity|]. split; [reflexivity|].
  cbn [cumulative new_views].
  pose proof (ReconcilerFacts.reconcile_totals_together now api_callout
                (start_tally loaded (save_videos_csv videos fs))) as H.
  cbn [start_tally cumulative_total total_new_views SUMTOTAL_TXT save_videos_csv] in H.
  lia.
Qed.

End RunLoop.

(** * The further statements at sample inputs *)

Module MoreSamples.
Import Py.

Ltac run_of H :=
  match goal with
  | |- context [update_allvideoviews ?now ?batch ?fs] =>
      destruct (update_allvideoviews now batch fs) as [[? ?]|] eqn:H;
      [|discriminate H]
  end.

Ltac nodup_strings :=
  repeat first [ apply NoDup_nil
               | apply NoDup_cons; [simpl; intuition discriminate|] ].

(** A discovery of a known and a new id into a catalog that holds [A]. *)
Lemma appends_unseen_sample :
  VIDEOS_CSV (save_videos_csv [discovered "A" "renamed"; discovered "B" "second"]
                              sample_catalog)
  = Table [discovered "A" "first"; discovered "B" "second"].
Proof.
  exact (f_equal VIDEOS_CSV
           (CatalogStore.save_videos_csv_appends_unseen
              [discovered "A" "renamed"; discovered "B" "second"] sample_catalog
              eq_refl)).
Defined.

Lemma covers_discovery_sample :
  Forall (fun v =>
            in_ids (item_ids (DictReader (VIDEOS_CSV
                      (save_videos_csv [discovered "A" "renamed"; discovered "B" "second"]
                                       sample_catalog))))
                   (Item.video_id v) = true)
         [discovered "A" "renamed"; discovered "B" "second"].
Proof.
  exact (CatalogStore.save_videos_csv_covers_discovery
           [discovered "A" "renamed"; discovered "B" "second"] sample_catalog eq_refl).
Defined.

(** The same discovery, with [B] listed twice, saved twice from nothing. *)
Lemma saved_twice_sample :
  save_videos_csv [discovered "B" "second"; discovered "B" "again"]
    (save_videos_csv [discovered "B" "second"; discovered "B" "again"] no_files)
  = save_videos_csv [discovered "B" "second"; discovered "B" "again"] no_files.
Proof.
  exact (CatalogStore.save_videos_csv_twice
           [discovered "B" "second"; discovered "B" "again"] no_files eq_refl).
Defined.

Lemma only_grows_sample :
  exists added,
    VIDEOS_CSV (catalog_runs [[discovered "A" "renamed"; discovered "B" "second"];
                              [discovered "B" "second"; discovered "C" "third"]]
                             sample_catalog)
    = Table (discovered "A" "first" :: added).
Proof.
  destruct (CatalogStore.catalog_only_grows
              [[discovered "A" "renamed"; discovered "B" "second"];
               [discovered "B" "second"; discovered "C" "third"]]
              sample_catalog eq_refl) as [added Hadded].
  exists added. exact Hadded.
Defined.

(** A table whose second row reads [1e3]. *)
Lemma unreadable_row_sample :
  update_allvideoviews "t1" [measured "A" 150] garbled_table = Raise ValueError.
Proof.
  exact (DeltaReconciler.unreadable_row_raises "t1" [measured "A" 150] garbled_table
           (recorded "B" "1e3" "t0") (or_intror (or_introl eq_refl)) eq_refl eq_refl).
Defined.


Lemma run_leaves_readable_sample :
  exists fs' rep,
    update_allvideoviews "t1" [measured "B" 10] sample_files = Ok (fs', rep) /\
    rows_readable (ALL_VIEWS_CSV fs') /\
    load_cumulative_total (SUMTOTAL_TXT fs') = cumulative rep.
Proof.
  run_of H. eexists _, _. split; [reflexivity|].
  destruct (DeltaReconciler.run_leaves_readable_files _ _ _ _ _ H) as [H1 [H2 _]].
  now split.
Defined.

Lemma report_adds_up_sample :
  exists fs' rep,
    update_allvideoviews "t1" [measured "A" 150; measured "B" 10] sample_files
    = Ok (fs', rep) /\
    cumulative rep = 100 + new_views rep.
Proof.
  run_of H. eexists _, _. split; [reflexivity|].
  exact (proj1 (DeltaReconciler.report_adds_up _ _ _ _ _ H)).
Defined.

Lemma empty_batch_sample :
  exists fs' rep,
    update_allvideoviews "t1" [measured "B" 10] sample_files = Ok (fs', rep) /\
    update_allvideoviews "t2" [] fs'
    = Ok (fs', {| new_views := 0; cumulative := cumulative rep |}).
Proof.
  run_of H. eexists _, _. split; [reflexivity|].
  exact (DeltaReconciler.empty_batch_changes_nothing _ _ "t2" _ _ _ H).
Defined.

Lemma row_order_sample :
  exists fs1 rep1 fs2 rep2,
    update_allvideoviews "t1" [measured "A" 100; measured "C" 7] no_files
    = Ok (fs1, rep1) /\
    update_allvideoviews "t2" [measured "B" 10; measured "C" 9; measured "B" 11] fs1
    = Ok (fs2, rep2) /\
    row_ids (DictReader (ALL_VIEWS_CSV fs2)) = ["A"; "C"; "B"].
Proof.
  destruct (update_allvideoviews "t1" [measured "A" 100; measured "C" 7] no_files)
    as [[fs1 rep1]|] eqn:H1; [|discriminate H1].
  destruct (update_allvideoviews "t2" [measured "B" 10; measured "C" 9; measured "B" 11]
              fs1) as [[fs2 rep2]|] eqn:H2;
    [|injection H1 as <- _; discriminate H2].
  exists fs1, rep1, fs2, rep2. split; [reflexivity|]. split; [exact H2|].
  assert (Hnd : NoDup (row_ids (DictReader (ALL_VIEWS_CSV fs1)))).
  { injection H1 as <- _. simpl. nodup_strings. }
  rewrite (DeltaReconciler.rewritten_table_keeps_row_order _ _ _ _ _ Hnd H2).
  injection H1 as <- _. reflexivity.
Defined.

Lemma last_count_sample :
  exists fs' rep,
    update_allvideoviews "t1" [measured "B" 10; measured "C" 9; measured "B" 11]
                         sample_files
    = Ok (fs', rep) /\
    In (recorded "B" "11" "t1") (DictReader (ALL_VIEWS_CSV fs')).
Proof.
  run_of H. eexists _, _. split; [reflexivity|].
  exact (DeltaReconciler.batch_ids_stored_with_last_count _ _ _ _ _ "B" 11 H eq_refl).
Defined.

(** 120 identifiers against an upstream whose second answer is faulty:
    two requests are sent, the third never. *)
Lemma bad_count_sample :
  exists first second,
    fetch_current_views faulty_upstream sample_ids fresh_client
    = ({| requests := [first; second] |}, Raise ValueError).
Proof.
  eexists _, _.
  refine (MetricFetcher.fetch_current_views_stops_at_bad_count faulty_upstream
            sample_ids fresh_client 1 _ "many" _ _ (or_introl eq_refl) eq_refl eq_refl
            eq_refl).
  - vm_compute. lia.
  - intros j Hj it s' Hit Hs. assert (j = 0)%nat as -> by lia.
    destruct Hit as [<-|[]]. simpl in Hs. injection Hs as <-. reflexivity.
Defined.

Lemma sample_pages_served :
  served sample_listing "UU-uploads" 0 None
    [playlist_items sample_listing 0 "UU-uploads" None;
     playlist_items sample_listing 1 "UU-uploads" (Some "page2")].
Proof. apply served_more; [reflexivity|]. apply served_last. reflexivity. Defined.

Lemma discovery_sample :
  discover_videos sample_listing 5
  = Returned (map item_of [snippet "A"; snippet "B"; snippet "C"]).
Proof.
  exact (Discovery.discover_videos_follows_pages sample_listing "UU-uploads" _ 5
           eq_refl sample_pages_served ltac:(simpl; lia)).
Defined.

Lemma endless_discovery_sample : discover_videos endless_listing 1000 = Unfinished.
Proof.
  exact (Discovery.discover_videos_needs_last_page endless_listing "UU-uploads" 1000
           eq_refl (fun _ _ => eq_refl)).
Defined.

Lemma sample_listing_discovered :
  discover_videos sample_listing 5
  = Returned (map item_of [snippet "A"; snippet "B"; snippet "C"]).
Proof. reflexivity. Defined.

Lemma completed_iteration_sample :
  exists fs' c' r,
    run_once sample_listing sample_upstream 5 "t1" no_files fresh_client
    = (fs', c', Run_complete r) /\
    requests c' = ["A,B,C"] /\
    cumulative r = 0 + new_views r.
Proof.
  destruct (run_once sample_listing sample_upstream 5 "t1" no_files fresh_client)
    as [[fs' c'] status] eqn:Hrun.
  destruct status as [r| |]; try (exfalso; vm_compute in Hrun; discriminate Hrun).
  exists fs', c', r. split; [reflexivity|].
  destruct (RunLoop.completed_iteration _ _ _ _ _ _ _ _ _ _ sample_listing_discovered Hrun)
    as [H1 [_ H2]].
  split; [exact H1|exact H2].
Defined.

End MoreSamples.
